(** * gitlabserver: a shallow embedding of [gitlabserver.go]

    The Go package wraps a GitLab API client.  This development embeds the
    functions of [src/gitlabserver.go] and proves properties of them:

    - the three count operations ([ProjectCount], [GroupCount], [UserCount]),
    - the concurrent fetch of all projects ([Projects]): one goroutine per
      page, a slice shared under a mutex, a wait group,
    - the sequential fetch of all groups ([Groups]),
    - the path helpers [TopLevelGroups] and [ParentGroup],
    - [GetLatestCommit] and [ProjectExists].

    Conventions of the embedding.
    - A Go [int] is a [Z]; a Go [string] is a [string] (a sequence of bytes).
    - A pointer that the code dereferences and that may be [nil] is an
      [option]; the elements of the slices ([*gitlab.Project], ...) are
      records, never [nil].
    - A Go function returning [(T, error)] returns a pair whose second
      component is an [option error]; [None] is the [nil] error.
    - A run-time panic is the constructor [Panics] of [outcome]: it is not an
      [error] value and the caller cannot test for it.
    - The GitLab client ([gitlab.Client]) is not part of the package.  It is
      a record of functions over an abstract state [W] of the remote
      instance and of the connection; every call threads that state.
    - [float64] is IEEE 754 binary64 as specified by the standard library's
      [SpecFloat] (precision 53, round to nearest even).
    - The limits of the run time are those of linux/amd64: an [int] has 64
      bits, a pointer 8 bytes, and [make] accepts up to 2^48 bytes. *)

From Stdlib Require Import ZArith Lia Bool List String Ascii.
From Stdlib Require Import SpecFloat.
From stdpp Require Import base option list relations gmap strings pretty.

Open Scope Z_scope.

(** * Part I: the embedding *)

(** ** Go run-time values *)

(** Run-time panics the package can raise. *)
Inductive panic : Type :=
| IndexOutOfRange (index len : Z)   (* index out of range [index] with length [len] *)
| NilDereference                    (* invalid memory address or nil pointer dereference *)
| MakesliceCapOutOfRange            (* makeslice: cap out of range *)
| NegativeWaitGroupCounter.         (* sync: negative WaitGroup counter *)

(** What a call does: it returns a value or it panics. *)
Inductive outcome (A : Type) : Type :=
| Returns (a : A)
| Panics (p : panic).
Arguments Returns {A} a.
Arguments Panics {A} p.

(** The two causes of a [*strconv.NumError]. *)
Inductive strconv_cause : Type := ErrSyntax | ErrRange.

(** Go [error] values, by dynamic type.
    - [errorString]: [*errors.errorString], what [errors.New] and [fmt.Errorf]
      (without the wrapping verb) build: a message and nothing else;
    - [NumError]: [*strconv.NumError];
    - [ClientError]: an error built by the GitLab client or below it. *)
Inductive error : Type :=
| errorString (s : string)
| NumError (Func Num : string) (Err : strconv_cause)
| ClientError (description : string).

(** The dynamic types behind the [error] interface. *)
Inductive error_type : Type :=
| T_errors_errorString | T_strconv_NumError | T_client.

Definition dynamic_type (e : error) : error_type :=
  match e with
  | errorString _ => T_errors_errorString
  | NumError _ _ _ => T_strconv_NumError
  | ClientError _ => T_client
  end.

(** ** Strings: [strings.Split] *)

(** [s[n:]] *)
Fixpoint string_drop (n : nat) (s : string) : string :=
  match n, s with
  | O, _ => s
  | S n', String _ s' => string_drop n' s'
  | S _, EmptyString => EmptyString
  end.

(** [strings.Index(s, sep)] for a non-empty [sep]: the index of the first
    occurrence of [sep] in [s], [None] for Go's [-1]. *)
Definition Index (s sep : string) : option nat := String.index 0 sep s.

Definition byte_in (lo hi : nat) (s : string) (i : nat) : bool :=
  match String.get i s with
  | Some c => (lo <=? nat_of_ascii c)%nat && (nat_of_ascii c <=? hi)%nat
  | None => false
  end.

(** The size in bytes of the first UTF-8 sequence of a non-empty [s], as
    [utf8.DecodeRuneInString] reports it: an invalid or truncated sequence
    has size 1. *)
Definition rune_size (s : string) : nat :=
  match String.get 0 s with
  | None => 0%nat
  | Some c =>
      let b := nat_of_ascii c in
      let cont := byte_in 128 191 s in
      if (b <? 194)%nat then 1%nat                                     (* ASCII, or invalid *)
      else if (b <? 224)%nat then if cont 1%nat then 2%nat else 1%nat
      else if (b <? 240)%nat then
        let second :=
          if (b =? 224)%nat then byte_in 160 191 s 1
          else if (b =? 237)%nat then byte_in 128 159 s 1
          else cont 1%nat in
        if second && cont 2%nat then 3%nat else 1%nat
      else if (b <? 245)%nat then
        let second :=
          if (b =? 240)%nat then byte_in 144 191 s 1
          else if (b =? 244)%nat then byte_in 128 143 s 1
          else cont 1%nat in
        if second && cont 2%nat && cont 3%nat then 4%nat else 1%nat
      else 1%nat
  end.

(** [explode]: [s] cut into its UTF-8 sequences (used for an empty separator). *)
Fixpoint explode_loop (fuel : nat) (s : string) : list string :=
  match fuel, s with
  | O, _ | _, EmptyString => []
  | S fuel', _ =>
      let size := rune_size s in
      String.substring 0 size s :: explode_loop fuel' (string_drop size s)
  end.

Definition explode (s : string) : list string := explode_loop (String.length s) s.

(** The loop of [genSplit]: cut at every non-overlapping occurrence of [sep],
    from the left.  Each round removes at least one byte, so [String.length s]
    rounds are enough. *)
Fixpoint genSplit_loop (fuel : nat) (s sep : string) : list string :=
  match fuel with
  | O => [s]
  | S fuel' =>
      match Index s sep with
      | None => [s]
      | Some m =>
          String.substring 0 m s
            :: genSplit_loop fuel' (string_drop (m + String.length sep) s) sep
      end
  end.

(** [strings.Split(s, sep)] *)
Definition Split (s sep : string) : list string :=
  match sep with
  | EmptyString => explode s
  | _ => genSplit_loop (String.length s) s sep
  end.

(** [slices.Contains] on strings *)
Fixpoint Contains (l : list string) (x : string) : bool :=
  match l with
  | [] => false
  | y :: l' => if String.eqb y x then true else Contains l' x
  end.

(** [a[i]] on a slice: a panic when [i] is not below the length *)
Definition at_index {A} (a : list A) (i : nat) : outcome A :=
  match a !! i with
  | Some x => Returns x
  | None => Panics (IndexOutOfRange (Z.of_nat i) (Z.of_nat (length a)))
  end.

(** ** Integers: [strconv.Atoi] on a 64-bit platform *)

Definition maxUint64 : Z := 2 ^ 64 - 1.
Definition maxInt : Z := 2 ^ 63 - 1.
Definition minInt : Z := - 2 ^ 63.

Definition is_digit (c : ascii) : bool :=
  (48 <=? nat_of_ascii c)%nat && (nat_of_ascii c <=? 57)%nat.

Definition digit_value (c : ascii) : Z := Z.of_nat (nat_of_ascii c) - 48.

(** The digit loop of [ParseUint] in base 10: a byte that is not a digit is a
    syntax error, a value above [maxUint64] a range error, whichever comes
    first. *)
Fixpoint parse_digits (s : string) (n : Z) : Z + strconv_cause :=
  match s with
  | EmptyString => inl n
  | String c s' =>
      if is_digit c then
        let n1 := n * 10 + digit_value c in
        if maxUint64 <? n1 then inr ErrRange else parse_digits s' n1
      else inr ErrSyntax
  end.

Definition Atoi (s : string) : Z * option error :=
  let '(neg, digits) :=
    match s with
    | String "-"%char t => (true, t)
    | String "+"%char t => (false, t)
    | _ => (false, s)
    end in
  match digits with
  | EmptyString => (0, Some (NumError "Atoi" s ErrSyntax))
  | _ =>
      match parse_digits digits 0 with
      | inr ErrSyntax => (0, Some (NumError "Atoi" s ErrSyntax))
      | inr ErrRange =>
          (if neg then minInt else maxInt, Some (NumError "Atoi" s ErrRange))
      | inl un =>
          if neg then
            if - minInt <? un then (minInt, Some (NumError "Atoi" s ErrRange))
            else (- un, None)
          else
            if maxInt <? un then (maxInt, Some (NumError "Atoi" s ErrRange))
            else (un, None)
      end
  end.

(** ** Floating point: the page count *)

Definition ITEMS_PER_PAGE : Z := 100.

Definition prec : Z := 53.
Definition emax : Z := 1024.

(** [float64(n)] for an [int] n: the nearest binary64, ties to even *)
Definition float64_of_int (n : Z) : spec_float := binary_normalize prec emax n 0 false.

(** [x / y] on [float64] *)
Definition float64_div (x y : spec_float) : spec_float := SFdiv prec emax x y.

(** [math.Ceil]: the least integral float not below [x]; zeros, infinities
    and NaN are returned unchanged (a negative fraction above -1 gives -0). *)
Definition math_Ceil (x : spec_float) : spec_float :=
  match x with
  | S754_finite s m e =>
      if 0 <=? e then x
      else
        let k := 2 ^ (- e) in
        let c := if s then - (Zpos m / k) else - (- Zpos m / k) in
        binary_normalize prec emax c 0 s
  | _ => x
  end.

(** [int(x)] for a [float64] x: the fraction is discarded.  When the value
    does not fit an [int] the result depends on the platform; amd64 yields
    the least [int]. *)
Definition int_of_float64 (x : spec_float) : Z :=
  match x with
  | S754_zero _ => 0
  | S754_finite s m e =>
      let a := if 0 <=? e then Zpos m * 2 ^ e else Zpos m / 2 ^ (- e) in
      let v := if s then - a else a in
      if (minInt <=? v) && (v <=? maxInt) then v else minInt
  | S754_infinity _ | S754_nan => minInt
  end.

(** [int(math.Ceil(float64(projectCount) / ITEMS_PER_PAGE))] *)
Definition pagesToCheck (projectCount : Z) : Z :=
  int_of_float64
    (math_Ceil (float64_div (float64_of_int projectCount) (float64_of_int ITEMS_PER_PAGE))).

(** ** Limits of the run time: [make] and [sync.WaitGroup] *)

(** The size of a pointer, the element of [[]*gitlab.Project] and
    [[]*gitlab.Group]. *)
Definition PtrSize : Z := 8.

(** [maxAlloc] of the runtime: the address space of the heap, 2^48 bytes on
    linux/amd64. *)
Definition maxAlloc : Z := 2 ^ 48.

(** [uintptr(n)] for an [int] n *)
Definition uintptr_of_int (n : Z) : Z := n mod 2 ^ 64.

Definition MaxUintptr : Z := 2 ^ 64 - 1.

(** [math.MulUintptr(a, b)]: the product modulo 2^64 and whether it
    overflowed; operands below 2^32 cannot overflow, otherwise the test is
    [b > MaxUintptr/a]. *)
Definition MulUintptr (a b : Z) : Z * bool :=
  if (Z.lor a b <? 2 ^ 32) || (a =? 0) then ((a * b) mod 2 ^ 64, false)
  else ((a * b) mod 2 ^ 64, MaxUintptr / a <? b).

(** The test of [runtime.makeslice] for [make([]T, 0, cap)]:
    [overflow || mem > maxAlloc || len < 0 || len > cap] with [len = 0];
    the panic it leads to is "makeslice: cap out of range". *)
Definition cap_out_of_range (elem_size cap : Z) : bool :=
  let '(mem, overflow) := MulUintptr elem_size (uintptr_of_int cap) in
  overflow || (maxAlloc <? mem) || (cap <? 0).

(** [int32(x)] *)
Definition int32_of (x : Z) : Z := (x + 2 ^ 31) mod 2 ^ 32 - 2 ^ 31.

(** [wg.Add(delta)] on a new [sync.WaitGroup].  The counter is the upper
    half of a 64-bit state, read as an [int32]:
    [state := wg.state.Add(uint64(delta) << 32); v := int32(state >> 32)];
    a negative [v] panics, otherwise [v] is the counter. *)
Definition WaitGroup_Add (delta : Z) : outcome Z :=
  let v := int32_of delta in
  if v <? 0 then Panics NegativeWaitGroupCounter else Returns v.

(** ** Data of the GitLab API *)

(** [gitlab.Project], the fields the package reads *)
Module Project.
Record t : Type := { ID : Z; Name : string; WebURL : string }.
End Project.

(** [gitlab.Group] *)
Module Group.
Record t : Type := { ID : Z; FullPath : string }.
End Group.

(** [gitlab.Commit] *)
Module Commit.
Record t : Type := { ID : string }.
End Commit.

(** [gitlab.Response]: the HTTP response (status line, headers) and the
    pagination fields the client fills in from it *)
Module Response.
Record t : Type :=
  { Status : string; StatusCode : Z; Header : gmap string (list string); NextPage : Z }.
End Response.

Module ListOptions.
Record t : Type := { PerPage : Z; Page : Z }.
End ListOptions.

Module ListProjectsOptions.
Record t : Type := { ListOptions : ListOptions.t; Archived : option bool }.
End ListProjectsOptions.

Module ListGroupsOptions.
Record t : Type := { ListOptions : ListOptions.t; TopLevelOnly : option bool }.
End ListGroupsOptions.

Module ListGroupProjectsOptions.
Record t : Type :=
  { ListOptions : ListOptions.t;
    OrderBy : option string;
    Sort : option string;
    IncludeSubGroups : option bool;
    Search : option string }.
End ListGroupProjectsOptions.

(** [*retryablehttp.Request], as far as the package decides it *)
Record Request : Type := { Method : string; Path : string }.

(** The three results [(items, resp, err)] of a list call of the client. *)
Record listing (T : Type) : Type :=
  { items : list T; resp : option Response.t; err : option error }.
Arguments items {T} l.
Arguments resp {T} l.
Arguments err {T} l.

Definition http_StatusOK : Z := 200.

(** Lines written to standard output by [Projects]. *)
Inductive log_line : Type :=
| ScanningPage (page pages : Z)        (* "[DEBUG] Scanning projects page %d of %d\n" *)
| ListingError (e : error) (page : Z) (status : string).
                                       (* "error %q listing projects page %d: %s" *)

Section Server.
(** The state of the remote instance and of the connection to it. *)
Context {W : Type}.

(** A call of the client: it may change the remote state. *)
Definition call (A : Type) : Type := W -> A * W.

(** A computation of the package: it returns or panics. *)
Definition M (A : Type) : Type := W -> outcome A * W.

Definition ret {A} (a : A) : M A := fun w => (Returns a, w).
Definition fault {A} (p : panic) : M A := fun w => (Panics p, w).
Definition bind {A B} (m : M A) (k : A -> M B) : M B :=
  fun w => match m w with
           | (Returns a, w') => k a w'
           | (Panics p, w') => (Panics p, w')
           end.
Definition perform {A} (c : call A) : M A := fun w => let '(a, w') := c w in (Returns a, w').

(** [defer d]: [d] runs when the function returns, and when it panics. *)
Definition deferring {A} (d : W -> W) (m : M A) : M A :=
  fun w => let '(o, w') := m w in (o, d w').

(** [*gitlab.Client]: the methods the package calls. *)
Record Client : Type :=
  { BaseURL_Host : string;                        (* client.BaseURL().Host *)
    NewRequest : string -> string -> call (Request * option error);
    Do : Request -> call (option Response.t * option error);
    Body_Close : Response.t -> W -> W;            (* res.Body.Close() *)
    ListProjects : ListProjectsOptions.t -> call (listing Project.t);
    ListGroups : ListGroupsOptions.t -> call (listing Group.t);
    ListCommits : Z -> call (listing Commit.t);
    ListGroupProjects : Z -> ListGroupProjectsOptions.t -> call (listing Project.t) }.

Record GitlabServer : Type := { client : Client }.

Definition NewGitlabServer (c : Client) : GitlabServer := {| client := c |}.

Notation "'do' x <- m ; k" := (bind m (fun x => k))
  (at level 10, x name, m at level 100, k at level 200).

(** ** The count operations

    The bodies of [ProjectCount], [GroupCount] and [UserCount] differ in
    the path of the request only. *)
Definition count_of (g : GitlabServer) (path : string) : M (Z * option error) :=
  do request <- perform (NewRequest (client g) "GET" path);
  let '(req, err) := request in
  match err with
  | Some e => ret (0, Some e)
  | None =>
      do response <- perform (Do (client g) req);
      let '(res, err) := response in
      match err with
      | Some e => ret (0, Some e)
      | None =>
          match res with
          | None => fault NilDereference            (* defer res.Body.Close() *)
          | Some res =>
              deferring (Body_Close (client g) res)
                (match at_index (default [] (Response.Header res !! "X-Total")) 0 with
                 | Panics p => fault p
                 | Returns total =>
                     let '(count, err) := Atoi total in
                     match err with
                     | Some e => ret (0, Some e)
                     | None => ret (count, None)
                     end
                 end)
          end
      end
  end.

Definition ProjectCount (g : GitlabServer) : M (Z * option error) := count_of g "projects".
Definition GroupCount (g : GitlabServer) : M (Z * option error) := count_of g "groups".
Definition UserCount (g : GitlabServer) : M (Z * option error) := count_of g "users".

(** [make([]T, 0, n)] for a slice of pointers: [runtime.makeslice] panics
    on a capacity that is negative or asks for more than [maxAlloc] bytes.
    A capacity it accepts is allocated: running out of memory is a fatal
    error of the process, not a panic, and lies outside the embedding. *)
Definition make_slice {T} (n : Z) : M (list T) :=
  if cap_out_of_range PtrSize n then fault MakesliceCapOutOfRange else ret [].

(** ** [Projects]: one goroutine per page *)

Definition projects_options (page : Z) : ListProjectsOptions.t :=
  {| ListProjectsOptions.ListOptions :=
       {| ListOptions.PerPage := ITEMS_PER_PAGE; ListOptions.Page := page |};
     ListProjectsOptions.Archived := Some false |}.

(** The error branch of the goroutine:
    [if err != nil { fmt.Printf(..., err, page, resp.Status) }].
    It reads [resp.Status] whatever [resp] is. *)
Definition report (page : Z) (r : listing Project.t) : outcome (list log_line) :=
  match err r with
  | None => Returns []
  | Some e =>
      match resp r with
      | None => Panics NilDereference
      | Some rs => Returns [ListingError e page (Response.Status rs)]
      end
  end.

(** A goroutine of [Projects]. *)
Inductive task : Type :=
| Launched (page : Z)                           (* started; [ListProjects] not yet called *)
| Fetched (page : Z) (r : listing Project.t)    (* holds [p, resp, err]; waits for [mu] *)
| Finished (page : Z) (r : listing Project.t).  (* has appended, unlocked, [wg.Done()] *)

Definition task_page (t : task) : Z :=
  match t with Launched p | Fetched p _ | Finished p _ => p end.

Definition is_finished (t : task) : bool :=
  match t with Finished _ _ => true | _ => false end.

(** The state of [Projects] after [wg.Add]: the loop variable, the
    goroutines, the shared slice, the remote state, the output. *)
Record pool : Type :=
  { page : Z;
    tasks : list task;
    projects : list Project.t;
    remote : W;
    stdout : list log_line }.

Definition pool_start (w : W) : pool :=
  {| page := 1; tasks := []; projects := []; remote := w; stdout := [] |}.

(** One atomic step of the program: the main goroutine launches the next
    page; a goroutine calls [ListProjects] and reports; a goroutine takes
    the mutex, appends and is done.  Any enabled step may come next. *)
Inductive step (c : Client) (pages : Z) : pool -> pool -> Prop :=
| step_go st :
    page st < pages + 1 ->
    step c pages st
      {| page := page st + 1;
         tasks := tasks st ++ [Launched (page st)];
         projects := projects st;
         remote := remote st;
         stdout := stdout st ++ [ScanningPage (page st) pages] |}
| step_list st i p r w' out :
    tasks st !! i = Some (Launched p) ->
    ListProjects c (projects_options p) (remote st) = (r, w') ->
    report p r = Returns out ->
    step c pages st
      {| page := page st;
         tasks := <[i := Fetched p r]> (tasks st);
         projects := projects st;
         remote := w';
         stdout := stdout st ++ out |}
| step_append st i p r :
    tasks st !! i = Some (Fetched p r) ->
    step c pages st
      {| page := page st;
         tasks := <[i := Finished p r]> (tasks st);
         projects := projects st ++ items r;
         remote := remote st;
         stdout := stdout st |}.

(** A goroutine panics: the program stops. *)
Inductive crash (c : Client) : pool -> panic -> W -> Prop :=
| crash_report st i p r w' pn :
    tasks st !! i = Some (Launched p) ->
    ListProjects c (projects_options p) (remote st) = (r, w') ->
    report p r = Panics pn ->
    crash c st pn w'.

(** The counter of the wait group once [wg.Add(pages)] has stored [pages]:
    one [wg.Done()] per finished goroutine. *)
Definition wg_counter (pages : Z) (st : pool) : Z :=
  pages - Z.of_nat (length (filter (fun t => is_finished t = true) (tasks st))).

(** [wg.Wait()] returns: the loop is over and the counter is zero. *)
Definition joined (pages : Z) (st : pool) : Prop :=
  ~ page st < pages + 1 /\ wg_counter pages st = 0.

(** [Projects]: what a run from remote state [w] may end with.
    - [ProjectCount] panics, or returns an error, which is returned with a
      nil slice;
    - [make([]*gitlab.Project, 0, projectCount)] panics on a count that is
      negative or beyond the capacity the runtime accepts;
    - [wg.Add(pagesToCheck)] panics when the page count, read as an [int32],
      is negative;
    - a goroutine panics;
    - [wg.Wait()] returns and the shared slice is returned with a nil error.

    The last two describe the runs in which the counter of the wait group
    holds the number of pages ([wg.Add] returns it unchanged: fewer than
    2^31 pages).  A page count of 2^32 or more that wraps to a non-negative
    [int32] leaves the counter below the number of goroutines: [wg.Wait]
    then returns while goroutines still append, and the read of [projects]
    races with them.  The relation has no run for such a count. *)
Inductive Projects (g : GitlabServer) (w : W) :
  outcome (list Project.t * option error) -> W -> Prop :=
| Projects_count_panics p w1 :
    ProjectCount g w = (Panics p, w1) ->
    Projects g w (Panics p) w1
| Projects_count_error n e w1 :
    ProjectCount g w = (Returns (n, Some e), w1) ->
    Projects g w (Returns ([], Some e)) w1
| Projects_make_panics n w1 :
    ProjectCount g w = (Returns (n, None), w1) ->
    cap_out_of_range PtrSize n = true ->
    Projects g w (Panics MakesliceCapOutOfRange) w1
| Projects_add_panics n w1 pn :
    ProjectCount g w = (Returns (n, None), w1) ->
    cap_out_of_range PtrSize n = false ->
    WaitGroup_Add (pagesToCheck n) = Panics pn ->
    Projects g w (Panics pn) w1
| Projects_crashes n w1 st p w2 :
    ProjectCount g w = (Returns (n, None), w1) ->
    cap_out_of_range PtrSize n = false ->
    WaitGroup_Add (pagesToCheck n) = Returns (pagesToCheck n) ->
    rtc (step (client g) (pagesToCheck n)) (pool_start w1) st ->
    crash (client g) st p w2 ->
    Projects g w (Panics p) w2
| Projects_returns n w1 st :
    ProjectCount g w = (Returns (n, None), w1) ->
    cap_out_of_range PtrSize n = false ->
    WaitGroup_Add (pagesToCheck n) = Returns (pagesToCheck n) ->
    rtc (step (client g) (pagesToCheck n)) (pool_start w1) st ->
    joined (pagesToCheck n) st ->
    Projects g w (Returns (projects st, None)) (remote st).

(** ** [Groups]: one page after the other *)

Definition groups_options (page : Z) : ListGroupsOptions.t :=
  {| ListGroupsOptions.ListOptions :=
       {| ListOptions.PerPage := ITEMS_PER_PAGE; ListOptions.Page := page |};
     ListGroupsOptions.TopLevelOnly := Some true |}.

(** [listGroupsOptions.Page = resp.NextPage] *)
Definition set_Page (o : ListGroupsOptions.t) (page : Z) : ListGroupsOptions.t :=
  {| ListGroupsOptions.ListOptions :=
       {| ListOptions.PerPage := ListOptions.PerPage (ListGroupsOptions.ListOptions o);
          ListOptions.Page := page |};
     ListGroupsOptions.TopLevelOnly := ListGroupsOptions.TopLevelOnly o |}.

(** The [for] loop; [None] when [fuel] rounds were not enough. *)
Fixpoint Groups_loop (c : Client) (fuel : nat) (o : ListGroupsOptions.t)
    (groups : list Group.t) (w : W)
  : option (outcome (list Group.t * option error) * W) :=
  match fuel with
  | O => None
  | S fuel' =>
      let '(r, w1) := ListGroups c o w in
      match err r with
      | Some e => Some (Returns ([], Some e), w1)
      | None =>
          let groups := groups ++ items r in
          match resp r with
          | None => Some (Panics NilDereference, w1)
          | Some rs =>
              if Response.NextPage rs =? 0 then Some (Returns (groups, None), w1)
              else Groups_loop c fuel' (set_Page o (Response.NextPage rs)) groups w1
          end
      end
  end.

Definition Groups (g : GitlabServer) (fuel : nat) (w : W)
  : option (outcome (list Group.t * option error) * W) :=
  match GroupCount g w with
  | (Panics p, w1) => Some (Panics p, w1)
  | (Returns (_, Some e), w1) => Some (Returns ([], Some e), w1)
  | (Returns (groupCount, None), w1) =>
      match make_slice groupCount w1 with
      | (Panics p, w2) => Some (Panics p, w2)
      | (Returns groups, w2) => Groups_loop (client g) fuel (groups_options 1) groups w2
      end
  end.

(** ** The path helpers *)

Fixpoint TopLevelGroups_loop (host : string) (groups : list Group.t)
    (topLevelGroups : list string) : outcome (list string) :=
  match groups with
  | [] => Returns topLevelGroups
  | group :: rest =>
      match at_index (Split (Group.FullPath group) host) 0 with
      | Panics p => Panics p
      | Returns fullPath0 =>
          match at_index (Split fullPath0 "/") 0 with
          | Panics p => Panics p
          | Returns topLevelGroup0 =>
              if negb (Contains topLevelGroups topLevelGroup0)
              then TopLevelGroups_loop host rest (topLevelGroups ++ [topLevelGroup0])
              else TopLevelGroups_loop host rest topLevelGroups
          end
      end
  end.

Definition TopLevelGroups (g : GitlabServer) (groups : list Group.t) : outcome (list string) :=
  TopLevelGroups_loop (BaseURL_Host (client g)) groups [].

Definition ParentGroup (g : GitlabServer) (p : Project.t) : outcome string :=
  match at_index (Split (Project.WebURL p) (BaseURL_Host (client g))) 1 with
  | Panics pn => Panics pn
  | Returns fullPath1 => at_index (Split fullPath1 "/") 1
  end.

(** ** [GetLatestCommit] and [ProjectExists] *)

Definition unexpected_status (code : Z) : error :=
  errorString ("status code " +:+ pretty code +:+ " not expected, expecting "
               +:+ pretty http_StatusOK).

Definition no_commits : error := errorString "this repo has no commits".

Definition GetLatestCommit (g : GitlabServer) (p : Project.t) : M (string * option error) :=
  do r <- perform (ListCommits (client g) (Project.ID p));
  match err r with
  | Some e => ret (EmptyString, Some e)
  | None =>
      match resp r with
      | None => fault NilDereference
      | Some rs =>
          if negb (Response.StatusCode rs =? http_StatusOK)
          then ret (EmptyString, Some (unexpected_status (Response.StatusCode rs)))
          else
            match items r with
            | [] => ret (EmptyString, Some no_commits)
            | first :: _ => ret (Commit.ID first, None)
            end
      end
  end.

Definition group_projects_options (projectName : string) : ListGroupProjectsOptions.t :=
  {| ListGroupProjectsOptions.ListOptions :=
       {| ListOptions.PerPage := ITEMS_PER_PAGE; ListOptions.Page := 1 |};
     ListGroupProjectsOptions.OrderBy := Some "name";
     ListGroupProjectsOptions.Sort := Some "asc";
     ListGroupProjectsOptions.IncludeSubGroups := Some false;
     ListGroupProjectsOptions.Search := Some projectName |}.

(** The [range] loop of [ProjectExists]. *)
Fixpoint same_name_scan (projectName : string) (gitlabProjects : list Project.t)
  : bool * option Response.t * option error :=
  match gitlabProjects with
  | [] => (true, None, None)
  | gitlabProject :: rest =>
      if negb (String.eqb projectName (Project.Name gitlabProject))
      then (false, None, None)
      else same_name_scan projectName rest
  end.

Definition ProjectExists (g : GitlabServer) (gid : Z) (projectName : string)
  : M (bool * option Response.t * option error) :=
  do r <- perform (ListGroupProjects (client g) gid (group_projects_options projectName));
  match err r with
  | Some e => ret (false, resp r, Some e)
  | None =>
      match items r with
      | [] => ret (false, None, None)
      | _ => ret (same_name_scan projectName (items r))
      end
  end.

End Server.

Arguments Client W : clear implicits.
Arguments GitlabServer W : clear implicits.
Arguments pool W : clear implicits.

(** ** Notions used to state the properties *)

(** [p] is the ceiling of [n / d]: the least integer whose multiple of [d]
    reaches [n]. *)
Definition is_ceiling (n d p : Z) : Prop := d * (p - 1) < n <= d * p.

(** The last step of rounding to binary64: a mantissa [m1] of 53 bits is
    kept with its exponent; the mantissa 2^53, reached by rounding up, is
    halved and the exponent raised. *)
Definition finish_round (m1 e : Z) : spec_float :=
  if m1 <? 2 ^ 53 then S754_finite false (Z.to_pos m1) e
  else S754_finite false (Z.to_pos (2 ^ 52)) (e + 1).

(** The largest capacity [make] accepts for a slice of pointers: 2^45. *)
Definition maxCap : Z := maxAlloc / PtrSize.

(** The largest count whose page count the [int32] counter of the wait
    group holds: 2^31 - 1 pages of 100 items, 214748364700. *)
Definition maxCount : Z := (2 ^ 31 - 1) * ITEMS_PER_PAGE.

(** The pages [first], [first + 1], ..., [last]. *)
Definition page_range (first last : Z) : list Z := seqZ first (last + 1 - first).

(** The part of [s] that lies before the first occurrence of [sep]
    (all of it when [sep] does not occur). *)
Definition before (sep s : string) : string :=
  match Index s sep with
  | Some m => String.substring 0 m s
  | None => s
  end.

(** The keys of a list, each kept where it is seen first. *)
Fixpoint first_seen (keys : list string) : list string :=
  match keys with
  | [] => []
  | k :: rest => k :: filter (fun x => x <> k) (first_seen rest)
  end.

(** What [TopLevelGroups] reads off one full path. *)
Definition top_level_component (host fullPath : string) : string :=
  before "/" (before host fullPath).

Section Notions.
Context {W : Type}.

(** What the goroutine of a page got from [ListProjects], once it has called it. *)
Definition task_listing (t : task) : option (listing Project.t) :=
  match t with
  | Launched _ => None
  | Fetched _ r | Finished _ r => Some r
  end.

(** The items of the page of a goroutine. *)
Definition page_items (t : task) : list Project.t :=
  match task_listing t with
  | Some r => items r
  | None => []
  end.

(** What a goroutine has appended to the shared slice so far. *)
Definition appended (t : task) : list Project.t :=
  match t with
  | Finished _ r => items r
  | _ => []
  end.


(** Steps a goroutine still has to take. *)
Definition task_weight (t : task) : nat :=
  match t with
  | Launched _ => 2
  | Fetched _ _ => 1
  | Finished _ _ => 0
  end%nat.

(** Steps the whole run still has to take. *)
Definition run_weight (pages : Z) (st : pool W) : nat :=
  (3 * Z.to_nat (pages + 1 - page st) + sum_list_with task_weight (tasks st))%nat.

(** A walk along the next-page indices: from [page] in remote state [w],
    every fetch succeeds, the walk follows the next-page index of each
    response and stops at the first response whose index is zero.  It
    collects the items page by page. *)
Inductive cursor_walk (c : Client W) : Z -> W -> list (list Group.t) -> W -> Prop :=
| walk_last page w r rs w1 :
    ListGroups c (groups_options page) w = (r, w1) ->
    err r = None -> resp r = Some rs ->
    Response.NextPage rs = 0 ->
    cursor_walk c page w [items r] w1
| walk_next page w r rs w1 rest w2 :
    ListGroups c (groups_options page) w = (r, w1) ->
    err r = None -> resp r = Some rs ->
    Response.NextPage rs <> 0 ->
    cursor_walk c (Response.NextPage rs) w1 rest w2 ->
    cursor_walk c page w (items r :: rest) w2.

(** A walk that meets a failing fetch: [k] fetches were made, the last one
    returned the error [e] and left the remote state [w2]. *)
Inductive cursor_abort (c : Client W) : Z -> W -> error -> W -> nat -> Prop :=
| abort_here page w r e w1 :
    ListGroups c (groups_options page) w = (r, w1) ->
    err r = Some e ->
    cursor_abort c page w e w1 1
| abort_later page w r rs w1 e w2 k :
    ListGroups c (groups_options page) w = (r, w1) ->
    err r = None -> resp r = Some rs ->
    Response.NextPage rs <> 0 ->
    cursor_abort c (Response.NextPage rs) w1 e w2 k ->
    cursor_abort c page w e w2 (S k).

End Notions.

(** ** Clients for the examples: a remote instance that never changes *)

Definition header_of (total : option string) : gmap string (list string) :=
  match total with
  | Some s => {[ "X-Total" := [s] ]}
  | None => ∅
  end.

Definition response_200 (total : option string) (next : Z) : Response.t :=
  {| Response.Status := "200 OK"; Response.StatusCode := 200;
     Response.Header := header_of total; Response.NextPage := next |}.

Definition response_404 : Response.t :=
  {| Response.Status := "404 Not Found"; Response.StatusCode := 404;
     Response.Header := ∅; Response.NextPage := 0 |}.

Definition listed {T} (l : list T) (next : Z) : listing T :=
  {| items := l; resp := Some (response_200 None next); err := None |}.

Definition failed {T} (rs : option Response.t) (e : error) : listing T :=
  {| items := []; resp := rs; err := Some e |}.

Definition connection_refused : error := ClientError "dial tcp: connection refused".

Definition scripted (host : string) (count : option Response.t * option error)
    (project_pages : Z -> listing Project.t) (group_pages : Z -> listing Group.t)
    (commits : listing Commit.t) (candidates : listing Project.t) : Client unit :=
  {| BaseURL_Host := host;
     NewRequest := fun m p w => (({| Method := m; Path := p |}, None), w);
     Do := fun _ w => (count, w);
     Body_Close := fun _ w => w;
     ListProjects := fun o w =>
       (project_pages (ListOptions.Page (ListProjectsOptions.ListOptions o)), w);
     ListGroups := fun o w =>
       (group_pages (ListOptions.Page (ListGroupsOptions.ListOptions o)), w);
     ListCommits := fun _ w => (commits, w);
     ListGroupProjects := fun _ _ w => (candidates, w) |}.

Definition project (id : Z) (name url : string) : Project.t :=
  {| Project.ID := id; Project.Name := name; Project.WebURL := url |}.

Definition group (id : Z) (path : string) : Group.t :=
  {| Group.ID := id; Group.FullPath := path |}.

Definition p1 : Project.t := project 1 "alpha" "https://host/GroupA/alpha".
Definition p2 : Project.t := project 2 "beta" "https://host/GroupA/beta".
Definition p3 : Project.t := project 3 "gamma" "https://host/GroupB/gamma".

(** 150 projects announced, two pages. *)
Definition two_pages (n : Z) : listing Project.t :=
  if n =? 1 then listed [p1; p2] 2 else if n =? 2 then listed [p3] 0 else listed [] 0.

Definition two_page_server : GitlabServer unit :=
  NewGitlabServer
    (scripted "host" (Some (response_200 (Some "150") 0), None) two_pages
       (fun _ => listed [] 0) (listed [] 0) (listed [] 0)).


(** The first page fails below HTTP: an error and no response. *)
Definition first_page_refused (n : Z) : listing Project.t :=
  if n =? 1 then failed None connection_refused else two_pages n.

Definition refused_server : GitlabServer unit :=
  NewGitlabServer
    (scripted "host" (Some (response_200 (Some "150") 0), None) first_page_refused
       (fun _ => listed [] 0) (listed [] 0) (listed [] 0)).

(** No projects at all. *)
Definition empty_server : GitlabServer unit :=
  NewGitlabServer
    (scripted "host" (Some (response_200 (Some "0") 0), None) (fun _ => listed [] 0)
       (fun _ => listed [] 0) (listed [] 0) (listed [] 0)).

(** The response to the count request carries no [X-Total] header. *)
Definition headerless_server : GitlabServer unit :=
  NewGitlabServer
    (scripted "host" (Some (response_200 None 0), None) (fun _ => listed [] 0)
       (fun _ => listed [] 0) (listed [] 0) (listed [] 0)).

(** Three pages of groups chained 1, 2, 3, 0. *)
Definition gA : Group.t := group 10 "A/x".
Definition gB : Group.t := group 11 "A/y".
Definition gC : Group.t := group 12 "B/z".

Definition three_group_pages (n : Z) : listing Group.t :=
  if n =? 1 then listed [gA] 2
  else if n =? 2 then listed [gB] 3
  else if n =? 3 then listed [gC] 0
  else listed [] 0.

Definition group_server : GitlabServer unit :=
  NewGitlabServer
    (scripted "gitlab.example.com" (Some (response_200 (Some "3") 0), None)
       (fun _ => listed [] 0) three_group_pages (listed [] 0) (listed [] 0)).

(** The second page of groups fails. *)
Definition second_group_page_fails (n : Z) : listing Group.t :=
  if n =? 2 then failed (Some response_404) connection_refused else three_group_pages n.

Definition failing_group_server : GitlabServer unit :=
  NewGitlabServer
    (scripted "gitlab.example.com" (Some (response_200 (Some "3") 0), None)
       (fun _ => listed [] 0) second_group_page_fails (listed [] 0) (listed [] 0)).

(** A server whose base URL has the host [host], with a commit listing and a
    candidate listing. *)
Definition host_server (commits : listing Commit.t) (candidates : listing Project.t)
  : GitlabServer unit :=
  NewGitlabServer
    (scripted "host" (Some (response_200 (Some "0") 0), None) (fun _ => listed [] 0)
       (fun _ => listed [] 0) commits candidates).

Definition commit (id : string) : Commit.t := {| Commit.ID := id |}.

(** ** Notions for the further properties *)

(** Every byte of [s] is a decimal digit. *)
Fixpoint all_digits (s : string) : bool :=
  match s with
  | EmptyString => true
  | String c s' => is_digit c && all_digits s'
  end.

(** The number written by the digits [s] after the number [n]. *)
Fixpoint decimal_from (n : Z) (s : string) : Z :=
  match s with
  | EmptyString => n
  | String c s' => decimal_from (n * 10 + digit_value c) s'
  end.

(** [s] is a decimal numeral of [n]: an optional sign, then at least one
    digit, nothing else. *)
Definition numeral_of (s : string) (n : Z) : Prop :=
  exists sign digits,
    s = sign +:+ digits
    /\ (sign = EmptyString \/ sign = "+" \/ sign = "-")
    /\ digits <> EmptyString /\ all_digits digits = true
    /\ n = (if String.eqb sign "-" then - decimal_from 0 digits else decimal_from 0 digits).


(** A count result that lets neither [Projects] nor [Groups] go on: a
    panic, an error, or a negative count. *)
Definition count_unusable (o : outcome (Z * option error)) : Prop :=
  match o with
  | Returns (n, None) => n < 0
  | _ => True
  end.

(** What a fetch of all items ends with after such a count. *)
Definition without_count {T} (o : outcome (Z * option error))
  : outcome (list T * option error) :=
  match o with
  | Panics pn => Panics pn
  | Returns (_, Some e) => Returns ([], Some e)
  | Returns (_, None) => Panics MakesliceCapOutOfRange
  end.

(** The count request cannot be sent. *)
Definition unreachable_server : GitlabServer unit :=
  NewGitlabServer
    (scripted "host" (None, Some connection_refused) (fun _ => listed [] 0)
       (fun _ => listed [] 0) (listed [] 0) (listed [] 0)).

(** The header announces a negative count. *)
Definition negative_server : GitlabServer unit :=
  NewGitlabServer
    (scripted "host" (Some (response_200 (Some "-5") 0), None) two_pages
       three_group_pages (listed [] 0) (listed [] 0)).

(** The first page of projects fails with a response: HTTP 404. *)
Definition first_page_not_found (n : Z) : listing Project.t :=
  if n =? 1 then failed (Some response_404) (ClientError "404 Not Found") else two_pages n.

Definition not_found_server : GitlabServer unit :=
  NewGitlabServer
    (scripted "host" (Some (response_200 (Some "150") 0), None) first_page_not_found
       (fun _ => listed [] 0) (listed [] 0) (listed [] 0)).

(** The header announces 2^45 + 1 items, one more than [make] accepts; the
    pages of projects and of groups are in order. *)
Definition over_capacity_server : GitlabServer unit :=
  NewGitlabServer
    (scripted "host" (Some (response_200 (Some "35184372088833") 0), None) two_pages
       three_group_pages (listed [] 0) (listed [] 0)).


(** The count request fails; the pages of groups are in order. *)
Definition count_refused_server : GitlabServer unit :=
  NewGitlabServer
    (scripted "host" (None, Some connection_refused) two_pages
       three_group_pages (listed [] 0) (listed [] 0)).

(** Every page of groups names page 1 as the next page. *)
Definition endless_group_server : GitlabServer unit :=
  NewGitlabServer
    (scripted "host" (Some (response_200 (Some "3") 0), None) (fun _ => listed [] 0)
       (fun _ => listed [gA] 1) (listed [] 0) (listed [] 0)).

(** * Part II: properties *)

(** ** binary64 arithmetic of the page count *)

Lemma digits2_pos_bounds p :
  2 ^ (Zpos (digits2_pos p) - 1) <= Zpos p < 2 ^ Zpos (digits2_pos p).
Proof.
  induction p as [p IH|p IH|]; cbn [digits2_pos].
  - rewrite Pos2Z.inj_succ, (Pos2Z.inj_xI p).
    replace (Z.succ (Zpos (digits2_pos p)) - 1) with (Z.succ (Zpos (digits2_pos p) - 1)) by lia.
    rewrite !Z.pow_succ_r by lia.
    revert IH. generalize (2 ^ (Zpos (digits2_pos p) - 1)) (2 ^ Zpos (digits2_pos p)). lia.
  - rewrite Pos2Z.inj_succ, (Pos2Z.inj_xO p).
    replace (Z.succ (Zpos (digits2_pos p)) - 1) with (Z.succ (Zpos (digits2_pos p) - 1)) by lia.
    rewrite !Z.pow_succ_r by lia.
    revert IH. generalize (2 ^ (Zpos (digits2_pos p) - 1)) (2 ^ Zpos (digits2_pos p)). lia.
  - cbn. lia.
Qed.

Lemma digits2_pos_unique p d :
  2 ^ (d - 1) <= Zpos p < 2 ^ d -> Zpos (digits2_pos p) = d.
Proof.
  intros [Hlo Hhi]. pose proof (digits2_pos_bounds p) as [Blo Bhi].
  set (k := Zpos (digits2_pos p)) in *.
  assert (0 < d).
  { destruct (Z.ltb_spec 0 d); [lia|exfalso].
    rewrite Z.pow_neg_r in Hlo by lia.
    destruct (Z.eq_dec d 0) as [->|]; [cbn in Hhi; lia|].
    rewrite Z.pow_neg_r in Hhi by lia. lia. }
  destruct (Z.lt_trichotomy k d) as [Hc|[Hc|Hc]]; [exfalso| assumption |exfalso].
  - assert (2 ^ k <= 2 ^ (d - 1)) by (apply Z.pow_le_mono_r; lia). lia.
  - assert (2 ^ d <= 2 ^ (k - 1)) by (apply Z.pow_le_mono_r; lia). lia.
Qed.

Lemma iter_xO_pow2 p k : Zpos (Pos.iter xO p k) = Zpos p * 2 ^ Zpos k.
Proof.
  induction k as [|k IH] using Pos.peano_ind.
  - cbn. lia.
  - rewrite Pos.iter_succ, Pos2Z.inj_xO, IH, Pos2Z.inj_succ, Z.pow_succ_r by lia. lia.
Qed.

Lemma fexp_normal e : -1021 <= e -> fexp prec emax e = e - 53.
Proof. unfold fexp, emin, prec, emax. lia. Qed.

Lemma shr_m_of_loc m l : shr_m (shr_record_of_loc m l) = m.
Proof. destruct l as [|[]]; reflexivity. Qed.

Lemma loc_of_shr_of_loc m l : loc_of_shr_record (shr_record_of_loc m l) = l.
Proof. destruct l as [|[]]; reflexivity. Qed.

Lemma round_nearest_even_cases m l :
  round_nearest_even m l = m \/ round_nearest_even m l = m + 1.
Proof. destruct l as [|[]]; cbn; try destruct (Z.even m); auto. Qed.

(** a 53-bit mantissa with an exact location is returned unchanged *)
Lemma shr_fexp_53 q e l :
  2 ^ 52 <= Zpos q < 2 ^ 53 -> -1074 <= e ->
  shr_fexp prec emax (Zpos q) e l = (shr_record_of_loc (Zpos q) l, e).
Proof.
  intros Hq He. unfold shr_fexp. cbn [Zdigits2].
  rewrite (digits2_pos_unique q 53) by (cbn; lia).
  rewrite fexp_normal by lia.
  replace (53 + e - 53 - e) with 0 by lia. reflexivity.
Qed.

Lemma shr_fexp_54 q e l :
  2 ^ 53 <= Zpos q < 2 ^ 54 -> -1074 <= e ->
  shr_fexp prec emax (Zpos q) e l = (shr_1 (shr_record_of_loc (Zpos q) l), e + 1).
Proof.
  intros Hq He. unfold shr_fexp. cbn [Zdigits2].
  rewrite (digits2_pos_unique q 54) by (cbn; lia).
  rewrite fexp_normal by lia.
  replace (54 + e - 53 - e) with 1 by lia. reflexivity.
Qed.

Lemma second_round m1 e :
  2 ^ 52 <= m1 <= 2 ^ 53 -> -1074 <= e <= 960 ->
  (let '(mrs, e'') := shr_fexp prec emax m1 e loc_Exact in
   match shr_m mrs with
   | Z0 => S754_zero false
   | Zpos m => if Z.leb e'' (emax - prec) then S754_finite false m e'' else S754_infinity false
   | _ => S754_nan
   end) = finish_round m1 e.
Proof.
  intros Hm He. unfold finish_round.
  destruct (Z.ltb_spec m1 (2 ^ 53)) as [Hlt|Hge].
  - destruct m1 as [|p|p]; try lia.
    rewrite shr_fexp_53 by lia. cbn [shr_record_of_loc shr_m].
    destruct (Z.leb_spec e (emax - prec)) as [_|Hbad]; [reflexivity|].
    unfold emax, prec in Hbad. lia.
  - assert (m1 = 2 ^ 53) as -> by lia.
    change (2 ^ 53) with (Zpos (Z.to_pos (2 ^ 53))) at 1.
    rewrite shr_fexp_54 by (cbn; lia). cbn [shr_record_of_loc shr_m].
    cbn -[Z.leb Z.add].
    destruct (Z.leb_spec (e + 1) (emax - prec)) as [_|Hbad]; [reflexivity|].
    unfold emax, prec in Hbad. lia.
Qed.

Lemma binary_round_aux_53 q e l :
  2 ^ 52 <= Zpos q < 2 ^ 53 -> -1074 <= e <= 960 ->
  binary_round_aux prec emax false (Zpos q) e l
  = finish_round (round_nearest_even (Zpos q) l) e.
Proof.
  intros Hq He. unfold binary_round_aux.
  rewrite shr_fexp_53 by lia.
  rewrite shr_m_of_loc, loc_of_shr_of_loc.
  apply second_round; [|lia].
  destruct (round_nearest_even_cases (Zpos q) l) as [-> | ->]; lia.
Qed.

Lemma shr_1_spec m r s :
  0 <= m -> shr_1 (Build_shr_record m r s) = Build_shr_record (Z.div2 m) (Z.odd m) (r || s).
Proof. destruct m as [|[p|p|]|p]; intros; try lia; reflexivity. Qed.

Lemma binary_round_aux_54 q e l :
  2 ^ 53 <= Zpos q < 2 ^ 54 -> -1074 <= e <= 959 ->
  binary_round_aux prec emax false (Zpos q) e l
  = let mrs := shr_1 (shr_record_of_loc (Zpos q) l) in
    finish_round (round_nearest_even (shr_m mrs) (loc_of_shr_record mrs)) (e + 1).
Proof.
  intros Hq He. unfold binary_round_aux.
  rewrite shr_fexp_54 by lia.
  cbv zeta. apply second_round; [|lia].
  assert (shr_m (shr_1 (shr_record_of_loc (Zpos q) l)) = Z.div2 (Zpos q)) as Hm.
  { destruct l as [|[]]; cbn [shr_record_of_loc]; rewrite shr_1_spec by lia; reflexivity. }
  pose proof (Z.div2_div (Zpos q)) as Hd.
  destruct (round_nearest_even_cases (shr_m (shr_1 (shr_record_of_loc (Zpos q) l)))
              (loc_of_shr_record (shr_1 (shr_record_of_loc (Zpos q) l)))) as [-> | ->];
    rewrite Hm, Hd; change (2 ^ 53) with (2 * 2 ^ 52) in *; change (2^54) with (2 * (2 * 2 ^ 52)) in *;
    split; try (apply Z.div_le_lower_bound; lia).
  all: assert (Zpos q / 2 < 2 * 2 ^ 52) by (apply Z.div_lt_upper_bound; lia); try lia.
  all: assert (2 ^ 52 <= Zpos q / 2) by (apply Z.div_le_lower_bound; lia); lia.
Qed.

Lemma float64_of_int_normal n :
  1 <= n < 2 ^ 53 ->
  exists mx a, 0 <= a <= 52 /\ Zpos mx = n * 2 ^ a /\ 2 ^ 52 <= Zpos mx < 2 ^ 53 /\
               float64_of_int n = S754_finite false mx (- a).
Proof.
  intros Hn. destruct n as [|p|p]; try lia.
  unfold float64_of_int, binary_normalize, binary_round.
  pose proof (digits2_pos_bounds p) as [Blo Bhi].
  set (d := Zpos (digits2_pos p)) in *.
  assert (1 <= d) by (unfold d; lia).
  assert (d <= 53).
  { destruct (Z.leb_spec d 53); [assumption|exfalso].
    assert (2 ^ 53 <= 2 ^ (d - 1)) by (apply Z.pow_le_mono_r; lia). lia. }
  rewrite Z.add_0_r, fexp_normal by lia.
  unfold shl_align. destruct (d - 53 - 0) as [|k|k] eqn:Hk; try lia.
  - assert (d = 53) as Hd by lia. rewrite Hd in *.
    exists p, 0. rewrite binary_round_aux_53 by (cbn in *; lia).
    cbn [round_nearest_even]. unfold finish_round.
    destruct (Z.ltb_spec (Zpos p) (2 ^ 53)); [|lia].
    cbn in *. repeat split; try lia. 
  - assert (Hmz : Zpos (Pos.iter xO p k) = Zpos p * 2 ^ Zpos k) by apply iter_xO_pow2.
    assert (Hkd : Zpos k = 53 - d) by lia.
    assert (Hlo : 2 ^ 52 <= Zpos (Pos.iter xO p k)).
    { rewrite Hmz. replace 52 with ((d - 1) + Zpos k) by lia.
      rewrite Z.pow_add_r by lia. apply Z.mul_le_mono_nonneg_r; lia. }
    assert (Hhi : Zpos (Pos.iter xO p k) < 2 ^ 53).
    { rewrite Hmz. replace 53 with (d + Zpos k) at 1 by lia.
      rewrite Z.pow_add_r by lia. apply Z.mul_lt_mono_pos_r; lia. }
    exists (Pos.iter xO p k), (Zpos k).
    rewrite binary_round_aux_53 by lia.
    cbn [round_nearest_even]. unfold finish_round.
    destruct (Z.ltb_spec (Zpos (Pos.iter xO p k)) (2 ^ 53)); [|lia].
    replace (d - 53) with (- Zpos k) by lia.
    repeat split; try lia. 
Qed.

Lemma int_of_float64_of_int n :
  0 <= n < 2 ^ 53 -> int_of_float64 (float64_of_int n) = n.
Proof.
  intros Hn. destruct (Z.eq_dec n 0) as [->|Hnz]; [reflexivity|].
  destruct (float64_of_int_normal n) as (mx & a & Ha & Hmx & Hb & ->); [lia|].
  unfold int_of_float64.
  assert (Hv : (if 0 <=? - a then Zpos mx * 2 ^ (- a) else Zpos mx / 2 ^ (- - a)) = n).
  { destruct (Z.leb_spec 0 (- a)).
    - assert (a = 0) as -> by lia. cbn in *. lia.
    - rewrite Z.opp_involutive, Hmx. apply Z.div_mul.
      apply Z.pow_nonzero; lia. }
  rewrite Hv.
  destruct (Z.leb_spec minInt n), (Z.leb_spec n maxInt); cbn [andb];
    unfold minInt, maxInt in *; try reflexivity; lia.
Qed.

(** [math.Ceil] and then [int] on a positive float with a fraction: the
    least integer whose multiple of 2^(-e) reaches the mantissa *)
Lemma ceil_finite m e :
  Zpos m < 2 ^ 53 -> e < 0 ->
  let c := int_of_float64 (math_Ceil (S754_finite false m e)) in
  2 ^ (- e) * (c - 1) < Zpos m <= 2 ^ (- e) * c.
Proof.
  intros Hm He. cbv zeta. unfold math_Ceil.
  destruct (Z.leb_spec 0 e); [lia|].
  set (k := 2 ^ (- e)).
  assert (Hk : 2 <= k).
  { unfold k. change 2 with (2 ^ 1) at 1. apply Z.pow_le_mono_r; lia. }
  set (c := - (- Zpos m / k)).
  pose proof (Z.div_mod (- Zpos m) k ltac:(lia)) as Hdm.
  pose proof (Z.mod_pos_bound (- Zpos m) k ltac:(lia)) as Hmod.
  assert (Hc : k * (c - 1) < Zpos m <= k * c) by (unfold c; nia).
  assert (1 <= c <= Zpos m) by nia.
  change (binary_normalize prec emax c 0 false) with (float64_of_int c).
  rewrite int_of_float64_of_int by lia. exact Hc.
Qed.

Lemma ceil_finish_round m1 e :
  2 ^ 52 <= m1 <= 2 ^ 53 -> e <= -2 ->
  let c := int_of_float64 (math_Ceil (finish_round m1 e)) in
  2 ^ (- e) * (c - 1) < m1 <= 2 ^ (- e) * c.
Proof.
  intros Hm He. cbv zeta. unfold finish_round.
  destruct (Z.ltb_spec m1 (2 ^ 53)) as [Hlt|Hge].
  - destruct m1 as [|p|p]; try lia. cbn [Z.to_pos].
    apply ceil_finite; lia.
  - assert (m1 = 2 ^ 53) as -> by lia.
    pose proof (ceil_finite (Z.to_pos (2 ^ 52)) (e + 1) ltac:(cbn; lia) ltac:(lia)) as Hc.
    cbv zeta in Hc. revert Hc.
    generalize (int_of_float64 (math_Ceil (S754_finite false (Z.to_pos (2 ^ 52)) (e + 1)))).
    intros c. replace (- e) with (Z.succ (- (e + 1))) by lia.
    rewrite Z.pow_succ_r by lia.
    generalize (2 ^ (- (e + 1))). intros k.
    change (Zpos (Z.to_pos (2 ^ 52))) with (2 ^ 52). change (2 ^ 53) with (2 * 2 ^ 52).
    lia.
Qed.

Lemma div_eucl_div_mod a b : Z.div_eucl a b = (a / b, a mod b).
Proof. unfold Z.div, Z.modulo. destruct (Z.div_eucl a b); reflexivity. Qed.

Lemma SFdiv_core_53 mx ex my ey :
  2 ^ 52 <= Zpos mx < 2 ^ 53 -> 2 ^ 52 <= Zpos my < 2 ^ 53 -> -1021 <= ex - ey ->
  SFdiv_core_binary prec emax (Zpos mx) ex (Zpos my) ey
  = (Zpos mx * 2 ^ 53 / Zpos my, ex - ey - 53,
     new_location (Zpos my) ((Zpos mx * 2 ^ 53) mod Zpos my)).
Proof.
  intros Hx Hy He. unfold SFdiv_core_binary. cbn [Zdigits2].
  rewrite (digits2_pos_unique mx 53), (digits2_pos_unique my 53) by (cbn; lia).
  replace (53 + ex - (53 + ey)) with (ex - ey) by lia.
  rewrite fexp_normal by lia.
  rewrite Z.min_l by lia.
  replace (ex - ey - (ex - ey - 53)) with 53 by lia.
  rewrite Z.shiftl_mul_pow2 by lia.
  rewrite div_eucl_div_mod. reflexivity.
Qed.

Lemma new_location_100 r' :
  0 <= r' < 100 ->
  new_location (100 * 2 ^ 46) (r' * 2 ^ 46)
  = if r' =? 0 then loc_Exact else loc_Inexact (r' ?= 50).
Proof.
  intros Hr. unfold new_location. change (Z.even (100 * 2 ^ 46)) with true.
  unfold new_location_even.
  destruct (Z.eqb_spec r' 0) as [->|Hnz]; [reflexivity|].
  destruct (Z.eqb_spec (r' * 2 ^ 46) 0) as [H0|_]; [lia|].
  f_equal. change (2 ^ 46) with 70368744177664.
  destruct (Z.compare_spec r' 50), (Z.compare_spec (2 * (r' * 70368744177664)) (100 * 70368744177664));
    try reflexivity; lia.
Qed.

(** the arithmetic heart: rounding the quotient to a grid of step 1/K,
    K >= 64, never crosses a multiple of 1/100 that is not on the grid *)
Lemma ceil_after_rounding n K q r' m c :
  0 <= r' < 100 -> n * K = 100 * q + r' -> 64 <= K ->
  (m = q /\ r' <= 50) \/ (m = q + 1 /\ 50 <= r') ->
  K * (c - 1) < m <= K * c ->
  100 * (c - 1) < n <= 100 * c.
Proof. intros Hr Hq HK Hm Hc. nia. Qed.

Lemma ceil_after_rounding_half n K q r' m c :
  0 <= r' < 100 -> n * (2 * K) = 100 * q + r' -> 64 <= K ->
  (m = Z.div2 q /\ (Z.odd q = false \/ r' = 0)) \/ (m = Z.div2 q + 1 /\ Z.odd q = true) ->
  K * (c - 1) < m <= K * c ->
  100 * (c - 1) < n <= 100 * c.
Proof.
  intros Hr Hq HK Hm Hc.
  pose proof (Z.div2_odd q) as Hd. set (h := Z.div2 q) in *.
  destruct (Z.odd q); cbn [Z.b2z] in Hd; nia.
Qed.

Lemma float64_100 : float64_of_int ITEMS_PER_PAGE = S754_finite false (Z.to_pos (100 * 2 ^ 46)) (-46).
Proof. reflexivity. Qed.

(** the page count of a count up to 2^53 is the ceiling of the hundredth *)
Lemma pagesToCheck_ceil n :
  0 <= n <= 2 ^ 53 ->
  100 * (pagesToCheck n - 1) < n <= 100 * pagesToCheck n.
Proof.
  intros Hn.
  destruct (Z.eq_dec n 0) as [->|Hn0]; [vm_compute; intuition congruence|].
  destruct (Z.eq_dec n (2 ^ 53)) as [->|Hn53]; [vm_compute; intuition congruence|].
  unfold pagesToCheck, float64_div. rewrite float64_100.
  destruct (float64_of_int_normal n) as (mx & a & Ha & Hmx & Hb & ->); [lia|].
  unfold SFdiv. cbn [xorb].
  rewrite SFdiv_core_53 by (cbn; lia).
  change (Zpos (Z.to_pos (100 * 2 ^ 46))) with (100 * 2 ^ 46).
  set (K := 2 ^ (a + 7)).
  assert (HK : 128 <= K).
  { unfold K. change 128 with (2 ^ 7). apply Z.pow_le_mono_r; lia. }
  assert (Hnum : Zpos mx * 2 ^ 53 = n * K * 2 ^ 46).
  { rewrite Hmx. unfold K. rewrite Z.pow_add_r by lia.
    change (2 ^ 53) with (2 ^ 7 * 2 ^ 46). ring. }
  rewrite Hnum, Z.div_mul_cancel_r, Z.mul_mod_distr_r by lia.
  set (q := n * K / 100). set (r' := (n * K) mod 100).
  pose proof (Z.div_mod (n * K) 100 ltac:(lia)) as Hdm. fold q r' in Hdm.
  pose proof (Z.mod_pos_bound (n * K) 100 ltac:(lia)) as Hr. fold r' in Hr.
  rewrite new_location_100 by assumption.
  replace (- a - -46 - 53) with (- (a + 7)) by lia.
  assert (Hq : 2 ^ 52 <= q < 2 ^ 54).
  { assert (n * K = Zpos mx * 2 ^ 7) as HnK.
    { rewrite Hmx. unfold K. rewrite Z.pow_add_r by lia. ring. }
    unfold q. rewrite HnK. split.
    - apply Z.div_le_lower_bound; lia.
    - apply Z.div_lt_upper_bound; lia. }
  destruct q as [|pq|pq] eqn:Eq; try lia. rewrite <- Eq in *.
  destruct (Z.ltb_spec q (2 ^ 53)) as [Hsmall|Hbig].
  - (* the quotient already has 53 bits *)
    rewrite Eq, binary_round_aux_53 by lia. rewrite <- Eq.
    pose proof (ceil_finish_round
                  (round_nearest_even q (if r' =? 0 then loc_Exact else loc_Inexact (r' ?= 50)))
                  (- (a + 7))) as Hc.
    cbv zeta in Hc. rewrite Z.opp_involutive in Hc. fold K in Hc.
    apply (ceil_after_rounding n K q r'
             (round_nearest_even q (if r' =? 0 then loc_Exact else loc_Inexact (r' ?= 50)))
             _ Hr Hdm); [lia | |].
    + destruct (Z.eqb_spec r' 0); cbn [round_nearest_even]; [left; lia|].
      destruct (Z.compare_spec r' 50); cbn [round_nearest_even];
        try destruct (Z.even q); lia.
    + apply Hc; [|lia].
      destruct (round_nearest_even_cases q
                  (if r' =? 0 then loc_Exact else loc_Inexact (r' ?= 50))) as [-> | ->]; lia.
  - (* the quotient has 54 bits: one more shift *)
    rewrite Eq, binary_round_aux_54 by lia. rewrite <- Eq. cbv zeta.
    set (l := if r' =? 0 then loc_Exact else loc_Inexact (r' ?= 50)).
    set (mrs := shr_1 (shr_record_of_loc q l)).
    assert (Hmrs : mrs = Build_shr_record (Z.div2 q) (Z.odd q) (negb (r' =? 0))).
    { unfold mrs, l. destruct (Z.eqb_spec r' 0); [|destruct (r' ?= 50)];
        cbn [shr_record_of_loc]; rewrite shr_1_spec by lia; reflexivity. }
    set (m1 := round_nearest_even (shr_m mrs) (loc_of_shr_record mrs)).
    pose proof (Z.div2_odd q) as Hodd.
    assert (Hm1 : (m1 = Z.div2 q /\ (Z.odd q = false \/ r' = 0))
                  \/ (m1 = Z.div2 q + 1 /\ Z.odd q = true)).
    { unfold m1. rewrite Hmrs. cbn [shr_m loc_of_shr_record].
      destruct (Z.odd q), (Z.eqb_spec r' 0); cbn [negb round_nearest_even];
        try destruct (Z.even (Z.div2 q)); auto. }
    set (K' := 2 ^ (a + 6)).
    assert (HK' : K = 2 * K').
    { unfold K, K'. replace (a + 7) with (Z.succ (a + 6)) by lia.
      apply Z.pow_succ_r. lia. }
    pose proof (ceil_finish_round m1 (- (a + 7) + 1)) as Hc.
    cbv zeta in Hc. replace (- (- (a + 7) + 1)) with (a + 6) in Hc by lia. fold K' in Hc.
    apply (ceil_after_rounding_half n K' q r' m1 _ Hr); [lia | lia | exact Hm1 |].
    apply Hc; [|lia].
    destruct (Z.odd q); cbn [Z.b2z] in Hodd; lia.
Qed.

Lemma pagesToCheck_formula n : 0 <= n <= 2 ^ 53 -> pagesToCheck n = (n + 99) / 100.
Proof.
  intros Hn. pose proof (pagesToCheck_ceil n Hn).
  pose proof (Z.div_mod (n + 99) 100 ltac:(lia)).
  pose proof (Z.mod_pos_bound (n + 99) 100 ltac:(lia)). lia.
Qed.

(** *** Counts beyond 2^53: the page count stays a valid [int] *)

Lemma shr_1_m mrs : 0 <= shr_m mrs -> shr_m (shr_1 mrs) = shr_m mrs / 2.
Proof.
  destruct mrs as [m r s]. cbn [shr_m]. intros Hm.
  rewrite shr_1_spec by assumption. cbn [shr_m]. apply Z.div2_div.
Qed.

Lemma pow2_xO k : 2 ^ Zpos k~0 = 2 ^ Zpos k * 2 ^ Zpos k.
Proof. rewrite <- Z.pow_add_r by lia. f_equal. lia. Qed.

Lemma pow2_xI k : 2 ^ Zpos k~1 = 2 * (2 ^ Zpos k * 2 ^ Zpos k).
Proof.
  rewrite <- Z.pow_add_r by lia. rewrite <- Z.pow_succ_r by lia. f_equal. lia.
Qed.

Lemma shr_m_iter k : forall mrs,
  0 <= shr_m mrs -> shr_m (SpecFloat.iter_pos shr_1 k mrs) = shr_m mrs / 2 ^ Zpos k.
Proof.
  induction k as [k IH|k IH|]; intros mrs Hm; cbn [SpecFloat.iter_pos].
  - assert (0 < 2 ^ Zpos k) by (apply Z.pow_pos_nonneg; lia).
    assert (H1 : 0 <= shr_m (shr_1 mrs)) by (rewrite shr_1_m by lia; apply Z.div_pos; lia).
    assert (H2 : 0 <= shr_m (SpecFloat.iter_pos shr_1 k (shr_1 mrs)))
      by (rewrite IH by lia; apply Z.div_pos; lia).
    rewrite IH, IH, shr_1_m, pow2_xI by lia.
    rewrite !Z.div_div by lia. reflexivity.
  - assert (0 < 2 ^ Zpos k) by (apply Z.pow_pos_nonneg; lia).
    assert (H2 : 0 <= shr_m (SpecFloat.iter_pos shr_1 k mrs))
      by (rewrite IH by lia; apply Z.div_pos; lia).
    rewrite IH, IH, pow2_xO by lia.
    rewrite !Z.div_div by lia. reflexivity.
  - rewrite shr_1_m by lia. reflexivity.
Qed.

(** a mantissa of more than 53 bits is shifted down to 53 bits and rounded *)
Lemma binary_round_aux_wide q e l :
  54 <= Zpos (digits2_pos q) -> -1074 <= e -> e + Zpos (digits2_pos q) <= 1000 ->
  exists m1, 2 ^ 52 <= m1 <= 2 ^ 53 /\
    binary_round_aux prec emax false (Zpos q) e l
    = finish_round m1 (e + (Zpos (digits2_pos q) - 53)).
Proof.
  intros Hd He Hhi. pose proof (digits2_pos_bounds q) as [Blo Bhi].
  set (d := Zpos (digits2_pos q)) in *.
  unfold binary_round_aux, shr_fexp. cbn [Zdigits2]. fold d.
  rewrite fexp_normal by lia.
  replace (d + e - 53 - e) with (d - 53) by lia.
  destruct (d - 53) as [|k|k] eqn:Hk; try lia.
  cbn [shr].
  set (mrs := SpecFloat.iter_pos shr_1 k (shr_record_of_loc (Zpos q) l)).
  assert (Hm : shr_m mrs = Zpos q / 2 ^ Zpos k).
  { unfold mrs. rewrite shr_m_iter; rewrite shr_m_of_loc; [reflexivity|lia]. }
  assert (Hpow : 2 ^ d = 2 ^ 53 * 2 ^ Zpos k).
  { replace d with (53 + Zpos k) by lia. apply Z.pow_add_r; lia. }
  assert (Hpow' : 2 ^ (d - 1) = 2 ^ 52 * 2 ^ Zpos k).
  { replace (d - 1) with (52 + Zpos k) by lia. apply Z.pow_add_r; lia. }
  assert (0 < 2 ^ Zpos k) by (apply Z.pow_pos_nonneg; lia).
  assert (Hrange : 2 ^ 52 <= shr_m mrs < 2 ^ 53).
  { rewrite Hm. split.
    - apply Z.div_le_lower_bound; lia.
    - apply Z.div_lt_upper_bound; lia. }
  exists (round_nearest_even (shr_m mrs) (loc_of_shr_record mrs)).
  assert (Hr : 2 ^ 52 <= round_nearest_even (shr_m mrs) (loc_of_shr_record mrs) <= 2 ^ 53).
  { destruct (round_nearest_even_cases (shr_m mrs) (loc_of_shr_record mrs)) as [-> | ->]; lia. }
  split; [exact Hr|].
  apply second_round; [exact Hr | lia].
Qed.

Lemma finish_round_finite m1 e :
  2 ^ 52 <= m1 <= 2 ^ 53 ->
  exists mf ef, finish_round m1 e = S754_finite false mf ef /\
                2 ^ 52 <= Zpos mf < 2 ^ 53 /\ e <= ef <= e + 1.
Proof.
  intros Hm. unfold finish_round. destruct (Z.ltb_spec m1 (2 ^ 53)).
  - destruct m1 as [|p|p]; try lia. exists p, e. cbn [Z.to_pos]. repeat split; lia.
  - exists (Z.to_pos (2 ^ 52)), (e + 1). cbn. repeat split; lia.
Qed.

(** every positive [int] converts to a normal float with a 53-bit mantissa *)
Lemma float64_of_int_finite n :
  1 <= n <= maxInt ->
  exists mx ex, float64_of_int n = S754_finite false mx ex /\
                2 ^ 52 <= Zpos mx < 2 ^ 53 /\ -52 <= ex <= 11.
Proof.
  intros Hn. destruct (Z.ltb_spec n (2 ^ 53)) as [Hsmall|Hbig].
  - destruct (float64_of_int_normal n) as (mx & a & Ha & _ & Hb & ->); [lia|].
    exists mx, (- a). repeat split; lia.
  - destruct n as [|p|p]; try lia.
    pose proof (digits2_pos_bounds p) as [Blo Bhi].
    set (d := Zpos (digits2_pos p)) in *.
    assert (54 <= d).
    { destruct (Z.leb_spec 54 d); [assumption|exfalso].
      assert (2 ^ d <= 2 ^ 53) by (apply Z.pow_le_mono_r; lia). lia. }
    assert (d <= 63).
    { destruct (Z.leb_spec d 63); [assumption|exfalso].
      assert (2 ^ 63 <= 2 ^ (d - 1)) by (apply Z.pow_le_mono_r; lia).
      unfold maxInt in Hn. lia. }
    unfold float64_of_int, binary_normalize, binary_round. fold d.
    rewrite Z.add_0_r, fexp_normal by lia.
    unfold shl_align. destruct (d - 53 - 0) as [|k|k] eqn:Hk; try lia.
    destruct (binary_round_aux_wide p 0 loc_Exact) as (m1 & Hm1 & ->); fold d; try lia.
    destruct (finish_round_finite m1 (0 + (d - 53)) Hm1) as (mf & ef & -> & Hmf & Hef).
    exists mf, ef. repeat split; lia.
Qed.

Lemma ceil_int_nonneg mf ef :
  Zpos mf < 2 ^ 53 -> ef <= 9 ->
  0 <= int_of_float64 (math_Ceil (S754_finite false mf ef)) <= maxInt.
Proof.
  intros Hm He. destruct (Z.ltb_spec ef 0) as [Hneg|Hpos].
  - pose proof (ceil_finite mf ef Hm Hneg) as Hc. cbv zeta in Hc.
    assert (0 < 2 ^ (- ef)) by (apply Z.pow_pos_nonneg; lia).
    unfold maxInt. nia.
  - unfold math_Ceil. destruct (Z.leb_spec 0 ef); [|lia].
    unfold int_of_float64. destruct (Z.leb_spec 0 ef); [|lia].
    assert (0 < 2 ^ ef) by (apply Z.pow_pos_nonneg; lia).
    assert (2 ^ ef <= 2 ^ 9) by (apply Z.pow_le_mono_r; lia).
    assert (Zpos mf * 2 ^ ef < 2 ^ 53 * 2 ^ 9) by nia.
    change (2 ^ 53 * 2 ^ 9) with (2 ^ 62) in *.
    destruct (Z.leb_spec minInt (Zpos mf * 2 ^ ef)), (Z.leb_spec (Zpos mf * 2 ^ ef) maxInt);
      cbn [andb]; unfold minInt, maxInt in *; lia.
Qed.

(** the page count of a count that is a non-negative [int] is a
    non-negative [int]: [wg.Add] gets a valid counter, and the conversion
    to [int] never meets a value that does not fit *)
Lemma pagesToCheck_int n : 0 <= n <= maxInt -> 0 <= pagesToCheck n <= maxInt.
Proof.
  intros Hn. destruct (Z.eq_dec n 0) as [->|Hn0]; [vm_compute; intuition congruence|].
  unfold pagesToCheck, float64_div. rewrite float64_100.
  destruct (float64_of_int_finite n) as (mx & ex & -> & Hmx & Hex); [lia|].
  unfold SFdiv. cbn [xorb].
  rewrite SFdiv_core_53 by (cbn; lia).
  set (q := Zpos mx * 2 ^ 53 / Zpos (Z.to_pos (100 * 2 ^ 46))).
  assert (Hq : 2 ^ 52 <= q < 2 ^ 54).
  { unfold q. split.
    - apply Z.div_le_lower_bound; cbn; lia.
    - apply Z.div_lt_upper_bound; cbn; lia. }
  destruct q as [|pq|pq] eqn:Eq; try lia.
  destruct (Z.ltb_spec (Zpos pq) (2 ^ 53)).
  - rewrite binary_round_aux_53 by lia.
    match goal with |- context [finish_round ?m ?e] =>
      destruct (finish_round_finite m e) as (mf & ef & -> & Hmf & Hef) end.
    { match goal with |- context [round_nearest_even ?a ?b] =>
        destruct (round_nearest_even_cases a b) as [-> | ->] end; lia. }
    apply ceil_int_nonneg; lia.
  - rewrite binary_round_aux_54 by lia. cbv zeta.
    match goal with |- context [finish_round ?m ?e] =>
      destruct (finish_round_finite m e) as (mf & ef & -> & Hmf & Hef) end.
    { match goal with |- context [round_nearest_even (shr_m ?a) ?b] =>
        assert (Hs : shr_m a = Zpos pq / 2) end.
      { destruct (new_location _ _) as [|[]]; cbn [shr_record_of_loc];
          rewrite shr_1_m; cbn [shr_m]; lia. }
      assert (2 ^ 52 <= Zpos pq / 2 < 2 ^ 53).
      { split; [apply Z.div_le_lower_bound | apply Z.div_lt_upper_bound]; lia. }
      match goal with |- context [round_nearest_even ?a ?b] =>
        destruct (round_nearest_even_cases a b) as [-> | ->] end; lia. }
    apply ceil_int_nonneg; lia.
Qed.

(** ** Limits of the run time *)

Lemma cap_negative n : n < 0 -> cap_out_of_range PtrSize n = true.
Proof.
  intros Hn. unfold cap_out_of_range.
  destruct (MulUintptr PtrSize (uintptr_of_int n)) as [mem overflow].
  apply orb_true_iff. right. apply Z.ltb_lt. exact Hn.
Qed.

Lemma lor_lower_bound a b : 0 <= a -> b <= Z.lor a b.
Proof.
  intros Ha. pose proof (Z.sub_lor_l_same_r a b) as Hsub.
  assert (0 <= Z.land a (Z.lnot b)) by (apply Z.land_nonneg; left; exact Ha).
  lia.
Qed.

Lemma MaxUintptr_by_pointers : MaxUintptr / PtrSize = 2 ^ 61 - 1.
Proof. reflexivity. Qed.

Lemma cap_in_range n : 0 <= n <= maxCap -> cap_out_of_range PtrSize n = false.
Proof.
  unfold maxCap, maxAlloc. change (2 ^ 48 / PtrSize) with (2 ^ 45). intros Hn.
  unfold cap_out_of_range, MulUintptr, uintptr_of_int, maxAlloc.
  rewrite (Z.mod_small n) by lia. rewrite MaxUintptr_by_pointers.
  change PtrSize with 8. rewrite (Z.mod_small (8 * n)) by lia.
  assert (Hmem : (2 ^ 48 <? 8 * n) = false) by (apply Z.ltb_ge; lia).
  assert (Hneg : (n <? 0) = false) by (apply Z.ltb_ge; lia).
  assert (Hover : (2 ^ 61 - 1 <? n) = false) by (apply Z.ltb_ge; lia).
  destruct (_ || _); rewrite ?Hover, Hmem, Hneg; reflexivity.
Qed.

Lemma cap_too_large n : maxCap < n <= maxInt -> cap_out_of_range PtrSize n = true.
Proof.
  unfold maxCap, maxAlloc, maxInt. change (2 ^ 48 / PtrSize) with (2 ^ 45). intros Hn.
  unfold cap_out_of_range, MulUintptr, uintptr_of_int, maxAlloc.
  rewrite (Z.mod_small n) by lia. rewrite MaxUintptr_by_pointers.
  pose proof (lor_lower_bound PtrSize n ltac:(unfold PtrSize; lia)) as Hlor.
  destruct (Z.ltb_spec (Z.lor PtrSize n) (2 ^ 32)) as [Hsmall|_]; [lia|].
  change PtrSize with 8. cbn [orb Z.eqb].
  destruct (Z.ltb_spec (2 ^ 61 - 1) n) as [Hover|Hfits]; [reflexivity|].
  rewrite (Z.mod_small (8 * n)) by lia. cbn [orb].
  apply orb_true_iff. left. apply Z.ltb_lt. lia.
Qed.

(** [make] panics exactly on the capacities below 0 and above 2^45 *)
Lemma cap_out_of_range_int n :
  minInt <= n <= maxInt -> cap_out_of_range PtrSize n = true <-> n < 0 \/ maxCap < n.
Proof.
  intros Hint. split.
  - intros Hout. destruct (Z.lt_ge_cases n 0) as [Hneg|Hpos]; [left; exact Hneg|].
    destruct (Z.lt_ge_cases maxCap n) as [Hbig|Hsmall]; [right; exact Hbig|].
    rewrite cap_in_range in Hout by lia. discriminate.
  - intros [Hneg|Hbig]; [apply cap_negative, Hneg | apply cap_too_large; lia].
Qed.

Lemma int32_of_small p : - 2 ^ 31 <= p < 2 ^ 31 -> int32_of p = p.
Proof. intros Hp. unfold int32_of. rewrite Z.mod_small by lia. lia. Qed.

Lemma WaitGroup_Add_small p : 0 <= p < 2 ^ 31 -> WaitGroup_Add p = Returns p.
Proof.
  intros Hp. unfold WaitGroup_Add. rewrite int32_of_small by lia.
  destruct (Z.ltb_spec p 0); [lia | reflexivity].
Qed.

(** the counter holds the page count exactly when there are fewer than 2^31 pages *)
Lemma WaitGroup_Add_stored p : WaitGroup_Add p = Returns p <-> 0 <= p < 2 ^ 31.
Proof.
  split; [|apply WaitGroup_Add_small].
  unfold WaitGroup_Add, int32_of.
  pose proof (Z.mod_pos_bound (p + 2 ^ 31) (2 ^ 32) ltac:(lia)) as Hmod.
  destruct (Z.ltb_spec ((p + 2 ^ 31) mod 2 ^ 32 - 2 ^ 31) 0); [discriminate|].
  intros [= Heq]. lia.
Qed.

(** between 2^31 and 2^32 pages the counter is negative *)
Lemma WaitGroup_Add_negative p :
  2 ^ 31 <= p < 2 ^ 32 -> WaitGroup_Add p = Panics NegativeWaitGroupCounter.
Proof.
  intros Hp. unfold WaitGroup_Add, int32_of.
  replace ((p + 2 ^ 31) mod 2 ^ 32) with (p - 2 ^ 31).
  - destruct (Z.ltb_spec (p - 2 ^ 31 - 2 ^ 31) 0); [reflexivity | lia].
  - apply (Z.mod_unique_pos _ _ 1); lia.
Qed.

(** a count up to [maxCount] passes [make] and [wg.Add], and its page count
    is the ceiling *)
Lemma small_count n :
  0 <= n <= maxCount ->
  is_ceiling n ITEMS_PER_PAGE (pagesToCheck n)
  /\ 0 <= pagesToCheck n < 2 ^ 31
  /\ cap_out_of_range PtrSize n = false
  /\ WaitGroup_Add (pagesToCheck n) = Returns (pagesToCheck n).
Proof.
  unfold maxCount, ITEMS_PER_PAGE. intros Hn.
  pose proof (pagesToCheck_ceil n ltac:(lia)) as Hceil.
  assert (Hpages : 0 <= pagesToCheck n < 2 ^ 31)
    by (unfold is_ceiling, ITEMS_PER_PAGE in Hceil; lia).
  split; [exact Hceil|]. split; [exact Hpages|]. split.
  - apply cap_in_range. unfold maxCap, maxAlloc, PtrSize.
    change (2 ^ 48 / 8) with (2 ^ 45). lia.
  - apply WaitGroup_Add_small, Hpages.
Qed.

(** ** [strings.Split] *)

Lemma length_string_drop n : forall s,
  String.length (string_drop n s) = (String.length s - n)%nat.
Proof.
  induction n as [|n IH]; intros [|c s]; cbn; try reflexivity.
  apply IH.
Qed.

Lemma string_drop_app a b : string_drop (String.length a) (a +:+ b) = b.
Proof. induction a as [|c a IH]; [reflexivity | exact IH]. Qed.

Lemma string_drop_add n m : forall s,
  string_drop (n + m) s = string_drop m (string_drop n s).
Proof.
  induction n as [|n IH]; intros [|c s]; cbn; try reflexivity.
  - destruct m; reflexivity.
  - apply IH.
Qed.

Lemma app_String c a b : String c a +:+ b = String c (a +:+ b).
Proof. reflexivity. Qed.

Lemma app_empty b : EmptyString +:+ b = b.
Proof. reflexivity. Qed.

Lemma substring_app_prefix a b : String.substring 0 (String.length a) (a +:+ b) = a.
Proof.
  induction a as [|c a IH].
  - rewrite app_empty. destruct b; reflexivity.
  - rewrite app_String. cbn. f_equal. exact IH.
Qed.

Lemma Index_empty_string sep : sep <> EmptyString -> Index EmptyString sep = None.
Proof. destruct sep; [congruence | reflexivity]. Qed.

Lemma Index_some_nonempty s sep m : sep <> EmptyString -> Index s sep = Some m -> s <> EmptyString.
Proof. intros Hsep Hi ->. rewrite Index_empty_string in Hi by assumption. discriminate. Qed.

(** more fuel than the length of the string changes nothing *)
Lemma genSplit_loop_fuel sep : sep <> EmptyString -> forall f1 f2 s,
  (String.length s <= f1)%nat -> (String.length s <= f2)%nat ->
  genSplit_loop f1 s sep = genSplit_loop f2 s sep.
Proof.
  intros Hsep. induction f1 as [|f1 IH]; intros f2 s H1 H2.
  - destruct s; [|cbn in H1; lia].
    destruct f2; cbn [genSplit_loop]; [reflexivity|].
    rewrite Index_empty_string by assumption. reflexivity.
  - destruct f2 as [|f2].
    + destruct s; [|cbn in H2; lia].
      cbn [genSplit_loop]. rewrite Index_empty_string by assumption. reflexivity.
    + cbn [genSplit_loop]. destruct (Index s sep) as [m|] eqn:Hi; [|reflexivity].
      f_equal. apply IH; rewrite length_string_drop;
        pose proof (Index_some_nonempty s sep m Hsep Hi);
        destruct s; try congruence; destruct sep; try congruence; cbn in *; lia.
Qed.

Lemma Split_genSplit s sep :
  sep <> EmptyString -> Split s sep = genSplit_loop (String.length s) s sep.
Proof. destruct sep; [congruence | reflexivity]. Qed.

Lemma Split_none s sep : sep <> EmptyString -> Index s sep = None -> Split s sep = [s].
Proof.
  intros Hsep Hi. rewrite Split_genSplit by assumption.
  destruct (String.length s); cbn [genSplit_loop]; [reflexivity|]. rewrite Hi. reflexivity.
Qed.

Lemma Split_cons s sep m :
  sep <> EmptyString -> Index s sep = Some m ->
  Split s sep
  = String.substring 0 m s :: Split (string_drop (m + String.length sep) s) sep.
Proof.
  intros Hsep Hi. rewrite !Split_genSplit by assumption.
  pose proof (Index_some_nonempty s sep m Hsep Hi) as Hs.
  destruct (String.length s) as [|n] eqn:Hlen; [destruct s; cbn in *; congruence|].
  cbn [genSplit_loop]. rewrite Hi. f_equal.
  apply genSplit_loop_fuel; [assumption| |lia].
  rewrite length_string_drop. destruct sep; [congruence|]. cbn. lia.
Qed.

(** the first piece is what lies before the first separator *)
Lemma Split_first s sep : sep <> EmptyString -> at_index (Split s sep) 0 = Returns (before sep s).
Proof.
  intros Hsep. unfold before. destruct (Index s sep) as [m|] eqn:Hi.
  - rewrite (Split_cons s sep m) by assumption. reflexivity.
  - rewrite Split_none by assumption. reflexivity.
Qed.

(** a string cut around the first occurrence of the separator *)
Lemma Split_app pre sep tail :
  sep <> EmptyString -> Index (pre +:+ sep +:+ tail) sep = Some (String.length pre) ->
  Split (pre +:+ sep +:+ tail) sep = pre :: Split tail sep.
Proof.
  intros Hsep Hi. rewrite (Split_cons _ sep _ Hsep Hi).
  rewrite substring_app_prefix, string_drop_add, !string_drop_app. reflexivity.
Qed.

(** the first occurrence of a one-byte separator *)
Lemma Index_byte_app c seg rest :
  Index seg (String c EmptyString) = None ->
  Index (seg +:+ String c rest) (String c EmptyString) = Some (String.length seg).
Proof.
  unfold Index. induction seg as [|b seg IH].
  - intros _. rewrite app_empty. cbn. destruct (ascii_dec c c); [|congruence].
    destruct rest; reflexivity.
  - rewrite app_String. cbn [String.index String.length String.prefix].
    destruct (ascii_dec c b) as [->|Hne].
    + destruct seg; cbn; discriminate.
    + destruct (String.index 0 (String c EmptyString) seg) eqn:Hs; [discriminate|].
      intros _. rewrite IH by reflexivity. reflexivity.
Qed.

Lemma Index_byte_head c rest : Index (String c rest) (String c EmptyString) = Some 0%nat.
Proof.
  unfold Index. cbn. destruct (ascii_dec c c); [|congruence]. destruct rest; reflexivity.
Qed.

(** ** The path helpers *)

Lemma length_substring : forall s n m,
  String.length (String.substring n m s) = Nat.min m (String.length s - n).
Proof.
  induction s as [|c s IH]; intros [|n] [|m]; cbn; try reflexivity; try apply IH.
  - f_equal. rewrite IH. f_equal. lia.
Qed.

Lemma substring_substring : forall s p k m,
  (p + k <= m)%nat ->
  String.substring p k (String.substring 0 m s) = String.substring p k s.
Proof.
  induction s as [|c s IH]; intros p k m Hle.
  - destruct m; reflexivity.
  - destruct m as [|m].
    + assert (p = 0%nat) as -> by lia. assert (k = 0%nat) as -> by lia. reflexivity.
    + cbn [String.substring]. destruct p as [|p].
      * destruct k as [|k]; [reflexivity|]. cbn [String.substring]. f_equal.
        apply IH. lia.
      * cbn [String.substring]. apply IH. lia.
Qed.

(** what lies before the first separator holds no separator *)
Lemma before_free sep s : sep <> EmptyString -> Index (before sep s) sep = None.
Proof.
  intros Hsep. unfold before. destruct (Index s sep) as [m|] eqn:Hi; [|exact Hi].
  destruct (Index (String.substring 0 m s) sep) as [p|] eqn:Hp; [exfalso|reflexivity].
  unfold Index in *.
  pose proof (index_correct1 _ _ _ _ Hp) as Hocc.
  assert (Hlen : (p + String.length sep <= m)%nat).
  { pose proof (f_equal String.length Hocc) as Hl.
    rewrite !length_substring in Hl.
    destruct sep; [congruence|]. cbn [String.length] in *. lia. }
  rewrite substring_substring in Hocc by exact Hlen.
  apply (index_correct2 _ _ _ _ Hi p); [lia| |exact Hocc].
  destruct sep; [congruence|]. cbn [String.length] in Hlen. lia.
Qed.

Lemma at_index_second {A} (a : A) (l : list A) x :
  at_index l 0 = Returns x -> at_index (a :: l) 1 = Returns x.
Proof.
  unfold at_index. cbn. destruct (l !! 0%nat); [auto | discriminate].
Qed.

(** the second piece of a split, when there is one *)
Lemma Split_second s sep :
  sep <> EmptyString ->
  at_index (Split s sep) 1
  = match Index s sep with
    | None => Panics (IndexOutOfRange 1 1)
    | Some m => Returns (before sep (string_drop (m + String.length sep) s))
    end.
Proof.
  intros Hsep. destruct (Index s sep) as [m|] eqn:Hi.
  - rewrite (Split_cons s sep m) by assumption.
    apply at_index_second, Split_first, Hsep.
  - rewrite Split_none by assumption. reflexivity.
Qed.

Lemma Contains_elem_of l x : Contains l x = true <-> x ∈ l.
Proof.
  induction l as [|y l IH]; cbn.
  - split; [discriminate | intros H; inversion H].
  - destruct (String.eqb_spec y x) as [->|Hne].
    + split; [intros _; left | reflexivity].
    + rewrite IH. split; [intros H; right; exact H|].
      intros H. inversion H; subst; [congruence | assumption].
Qed.

Lemma first_seen_elem_of keys x : x ∈ first_seen keys <-> x ∈ keys.
Proof.
  induction keys as [|k keys IH]; cbn; [reflexivity|].
  rewrite !elem_of_cons, list_elem_of_filter, IH.
  destruct (decide (x = k)); intuition congruence.
Qed.

Lemma first_seen_NoDup keys : NoDup (first_seen keys).
Proof.
  induction keys as [|k keys IH]; cbn; [constructor|].
  constructor.
  - rewrite list_elem_of_filter. intros [Hne _]. congruence.
  - apply NoDup_filter, IH.
Qed.

Lemma first_seen_sublist keys : first_seen keys `sublist_of` keys.
Proof.
  induction keys as [|k keys IH]; cbn; [constructor|].
  apply sublist_skip. etransitivity; [apply sublist_filter | exact IH].
Qed.

Lemma filter_not_elem_of_nil (l : list string) : filter (fun x => x ∉ ([] : list string)) l = l.
Proof.
  induction l as [|x l IH]; [reflexivity|].
  rewrite filter_cons_True by (intros H; inversion H). f_equal. exact IH.
Qed.

(** the loop keeps what it has seen and adds the new keys as they come *)
Lemma TopLevelGroups_loop_first_seen host : host <> EmptyString -> forall groups seen,
  TopLevelGroups_loop host groups seen
  = Returns (seen ++ filter (fun x => x ∉ seen)
                      (first_seen (map (fun gr => top_level_component host (Group.FullPath gr))
                                       groups))).
Proof.
  intros Hhost. induction groups as [|gr groups IH]; intros seen; cbn [TopLevelGroups_loop map].
  - cbn. rewrite app_nil_r. reflexivity.
  - rewrite Split_first by assumption. rewrite Split_first by discriminate.
    fold (top_level_component host (Group.FullPath gr)).
    set (k := top_level_component host (Group.FullPath gr)).
    cbn [first_seen].
    destruct (Contains seen k) eqn:Hc; cbn [negb]; rewrite IH.
    + apply Contains_elem_of in Hc.
      rewrite filter_cons_False by (intros Hn; apply Hn, Hc).
      rewrite list_filter_filter. do 2 f_equal.
      apply list_filter_iff. intros x. split; [intros Hx | intros [Hx _]; exact Hx].
      split; [exact Hx|]. intros ->. apply Hx, Hc.
    + assert (Hk : k ∉ seen) by (rewrite <- Contains_elem_of, Hc; discriminate).
      rewrite filter_cons_True by exact Hk.
      rewrite <- app_assoc. cbn [app]. do 3 f_equal.
      rewrite list_filter_filter. apply list_filter_iff. intros x.
      rewrite elem_of_app, list_elem_of_singleton. tauto.
Qed.

(** C6 (as amended): with a non-empty host segment and full paths in which
    the host segment does not occur, [TopLevelGroups] takes the first path
    component of each full path, the part before its first slash, and
    returns these components without repetition, each at the place where it
    is seen first. *)
Theorem TopLevelGroups_first_seen {W} (g : GitlabServer W) (groups : list Group.t) :
  BaseURL_Host (client g) <> EmptyString ->
  Forall (fun gr => Index (Group.FullPath gr) (BaseURL_Host (client g)) = None) groups ->
  let keys := map (fun gr => before "/" (Group.FullPath gr)) groups in
  TopLevelGroups g groups = Returns (first_seen keys)
  /\ NoDup (first_seen keys)
  /\ (forall x, x ∈ first_seen keys <-> x ∈ keys)
  /\ first_seen keys `sublist_of` keys.
Proof.
  intros Hhost Hfree keys. split; [|split; [|split]].
  - unfold TopLevelGroups. rewrite TopLevelGroups_loop_first_seen by assumption.
    cbn [app]. rewrite filter_not_elem_of_nil. do 2 f_equal.
    apply map_ext_Forall. eapply Forall_impl; [exact Hfree|].
    intros gr Hgr. unfold top_level_component, before at 2. rewrite Hgr. reflexivity.
  - apply first_seen_NoDup.
  - apply first_seen_elem_of.
  - apply first_seen_sublist.
Qed.

(** The full paths of GitLab carry no host: A/x, A/y, B/z give A, B. *)
Lemma TopLevelGroups_first_seen_witness :
  TopLevelGroups group_server [gA; gB; gC] = Returns ["A"; "B"].
Proof.
  exact (proj1 (TopLevelGroups_first_seen group_server [gA; gB; gC] ltac:(discriminate)
                  ltac:(repeat constructor))).
Defined.

(** C6, as stated, fails: on full paths that start with the host segment the
    function reads what lies before the host, the empty string. *)
Lemma TopLevelGroups_host_prefix_counterexample :
  TopLevelGroups (host_server (listed [] 0) (listed [] 0))
    [group 1 "host/A/x"; group 2 "host/A/y"; group 3 "host/B/z"]
  = Returns [EmptyString]
  /\ TopLevelGroups (host_server (listed [] 0) (listed [] 0))
       [group 1 "host/A/x"; group 2 "host/A/y"; group 3 "host/B/z"]
     <> Returns ["A"; "B"].
Proof. split; [reflexivity | discriminate]. Qed.

(** C5 (as amended): [ParentGroup] has no error result.  When the first
    occurrence of the (non-empty) host segment in the web URL is followed by
    a tail in which the host does not occur again, it returns the text
    between the first slash of the tail and the next slash (or the end),
    wherever that first slash is, so one path segment after the host is
    enough; when that tail has no slash, or the host does not occur in the
    URL, it panics: index 1 out of range. *)
Theorem ParentGroup_second_piece {W} (g : GitlabServer W) (p : Project.t) :
  BaseURL_Host (client g) <> EmptyString ->
  (forall pre tail,
      Project.WebURL p = pre +:+ BaseURL_Host (client g) +:+ tail ->
      Index (Project.WebURL p) (BaseURL_Host (client g)) = Some (String.length pre) ->
      Index tail (BaseURL_Host (client g)) = None ->
      (forall j,
          Index tail "/" = Some j ->
          ParentGroup g p = Returns (before "/" (string_drop (j + 1) tail)))
      /\ (forall seg rest,
          tail = "/" +:+ seg +:+ rest -> Index seg "/" = None ->
          rest = EmptyString \/ (exists rest', rest = "/" +:+ rest') ->
          ParentGroup g p = Returns seg)
      /\ (Index tail "/" = None -> ParentGroup g p = Panics (IndexOutOfRange 1 1)))
  /\ (Index (Project.WebURL p) (BaseURL_Host (client g)) = None ->
      ParentGroup g p = Panics (IndexOutOfRange 1 1)).
Proof.
  intros Hhost. set (host := BaseURL_Host (client g)) in *. split.
  - intros pre tail Hurl Hfirst Hlast. unfold ParentGroup. fold host.
    rewrite Hurl in *. rewrite Split_app by assumption.
    rewrite (Split_none tail host) by assumption. cbn [at_index lookup list_lookup].
    split; [|split].
    + intros j Hj. rewrite Split_second by discriminate. rewrite Hj. reflexivity.
    + intros seg rest -> Hseg Hrest.
      change ("/" +:+ seg +:+ rest) with (String "/" (seg +:+ rest)).
      rewrite (Split_cons _ "/" 0) by (discriminate || apply Index_byte_head).
      cbn [String.length Nat.add string_drop].
      destruct Hrest as [-> | [rest' ->]].
      * replace (seg +:+ EmptyString) with seg.
        2:{ clear. induction seg as [|c s IH]; [reflexivity|].
            rewrite app_String, <- IH. reflexivity. }
        rewrite Split_none by (discriminate || assumption). reflexivity.
      * rewrite (Split_cons _ "/" (String.length seg))
          by (discriminate || apply Index_byte_app; assumption).
        cbn [at_index lookup list_lookup]. rewrite substring_app_prefix. reflexivity.
    + intros Hslash. rewrite Split_none by (discriminate || assumption). reflexivity.
  - intros Habsent. unfold ParentGroup. fold host.
    rewrite Split_none by assumption. reflexivity.
Qed.

(** The example of the specification, https://host/GroupA/project1, and a
    URL whose host name only starts with the host segment. *)
Lemma ParentGroup_second_piece_witness :
  ParentGroup (host_server (listed [] 0) (listed [] 0))
    (project 7 "project1" "https://host/GroupA/project1")
  = Returns "GroupA"
  /\ ParentGroup (host_server (listed [] 0) (listed [] 0))
       (project 8 "p" "https://host.example.com/GroupA/p")
     = Returns "GroupA".
Proof.
  split.
  - exact (proj1 (proj1 (ParentGroup_second_piece
                           (host_server (listed [] 0) (listed [] 0))
                           (project 7 "project1" "https://host/GroupA/project1")
                           ltac:(discriminate))
                    "https://" "/GroupA/project1" eq_refl eq_refl eq_refl)
             0%nat eq_refl).
  - exact (proj1 (proj1 (ParentGroup_second_piece
                           (host_server (listed [] 0) (listed [] 0))
                           (project 8 "p" "https://host.example.com/GroupA/p")
                           ltac:(discriminate))
                    "https://" ".example.com/GroupA/p" eq_refl eq_refl eq_refl)
             12%nat eq_refl).
Defined.

(** C5, as stated, fails: a URL with no path after the host is not answered
    with an error value but with an index fault, and a URL with a single
    path segment is answered with that segment. *)
Lemma ParentGroup_fault_counterexample :
  ParentGroup (host_server (listed [] 0) (listed [] 0)) (project 7 "project1" "https://host")
  = Panics (IndexOutOfRange 1 1)
  /\ ParentGroup (host_server (listed [] 0) (listed [] 0))
       (project 7 "project1" "https://host/GroupA")
     = Returns "GroupA".
Proof. split; reflexivity. Qed.

(** ** [strconv.Atoi] and the count operations *)

Lemma parse_digits_nonneg s : forall n un,
  0 <= n -> parse_digits s n = inl un -> 0 <= un.
Proof.
  induction s as [|c s IH]; intros n un Hn; cbn.
  - intros [= <-]. exact Hn.
  - destruct (is_digit c) eqn:Hd; [|discriminate].
    destruct (maxUint64 <? n * 10 + digit_value c); [discriminate|].
    apply IH. unfold is_digit in Hd. apply andb_true_iff in Hd as [Hlo _].
    apply Nat.leb_le in Hlo. unfold digit_value. lia.
Qed.

(** what [Atoi] returns without an error is an [int] *)
Lemma Atoi_range s n : Atoi s = (n, None) -> minInt <= n <= maxInt.
Proof.
  unfold Atoi.
  set (sd := match s with
             | String "-"%char t => (true, t)
             | String "+"%char t => (false, t)
             | _ => (false, s)
             end).
  destruct sd as [neg digits]. destruct digits as [|c ds]; [discriminate|].
  destruct (parse_digits (String c ds) 0) as [un|[]] eqn:Hp; try discriminate.
  pose proof (parse_digits_nonneg _ _ _ (Z.le_refl 0) Hp) as Hun.
  destruct neg.
  - destruct (Z.ltb_spec (- minInt) un); [discriminate|].
    intros [= <-]. unfold minInt, maxInt in *. lia.
  - destruct (Z.ltb_spec maxInt un); [discriminate|].
    intros [= <-]. unfold minInt, maxInt in *. lia.
Qed.

Section Counts.
Context {W : Type} (g : GitlabServer W).

(** once the request is answered, the count is read from the [X-Total]
    header of the response and from nothing else *)
Lemma count_of_reads_header path w req w1 res w2 :
  NewRequest (client g) "GET" path w = ((req, None), w1) ->
  Do (client g) req w1 = ((Some res, None), w2) ->
  count_of g path w
  = (match default [] (Response.Header res !! "X-Total") with
     | [] => Panics (IndexOutOfRange 0 0)
     | total :: _ =>
         match Atoi total with
         | (count, None) => Returns (count, None)
         | (_, Some e) => Returns (0, Some e)
         end
     end, Body_Close (client g) res w2).
Proof.
  intros Hreq Hdo. unfold count_of, bind, perform, deferring.
  rewrite Hreq, Hdo.
  destruct (default [] (Response.Header res !! "X-Total")) as [|total values]; [reflexivity|].
  cbn [at_index lookup list_lookup]. destruct (Atoi total) as [count [e|]]; reflexivity.
Qed.

(** a count returned without an error is a Go [int] *)
Lemma count_of_int path w n w' :
  count_of g path w = (Returns (n, None), w') -> minInt <= n <= maxInt.
Proof.
  unfold count_of, bind, perform, deferring.
  destruct (NewRequest (client g) "GET" path w) as [[req [e|]] w1]; [discriminate|].
  destruct (Do (client g) req w1) as [[res [e|]] w2]; [discriminate|].
  destruct res as [res|]; [|discriminate].
  destruct (at_index _ 0) as [total|pn]; [|discriminate].
  destruct (Atoi total) as [count [e|]] eqn:Ha; [discriminate|].
  intros [= <- _]. exact (Atoi_range _ _ Ha).
Qed.

(** a header that is present and not a number gives the error of [Atoi] *)
Lemma count_of_not_numeric path w req w1 res w2 total values count e :
  NewRequest (client g) "GET" path w = ((req, None), w1) ->
  Do (client g) req w1 = ((Some res, None), w2) ->
  Response.Header res !! "X-Total" = Some (total :: values) ->
  Atoi total = (count, Some e) ->
  count_of g path w = (Returns (0, Some e), Body_Close (client g) res w2).
Proof.
  intros Hreq Hdo Hh Ha. rewrite (count_of_reads_header path w req w1 res w2 Hreq Hdo).
  rewrite Hh. change (default [] (Some (total :: values))) with (total :: values).
  cbv beta iota. rewrite Ha. reflexivity.
Qed.

(** a header that is absent makes the count operation panic *)
Lemma count_of_missing_header path w req w1 res w2 :
  NewRequest (client g) "GET" path w = ((req, None), w1) ->
  Do (client g) req w1 = ((Some res, None), w2) ->
  Response.Header res !! "X-Total" = None ->
  count_of g path w = (Panics (IndexOutOfRange 0 0), Body_Close (client g) res w2).
Proof.
  intros Hreq Hdo Hh. rewrite (count_of_reads_header path w req w1 res w2 Hreq Hdo).
  rewrite Hh. reflexivity.
Qed.

End Counts.

(** C7 (the code departs from it): the response of [headerless_server] has
    no [X-Total] header; the three count operations panic with an index out
    of range instead of returning an error. *)
Theorem count_without_header_panics :
  ProjectCount headerless_server tt = (Panics (IndexOutOfRange 0 0), tt)
  /\ GroupCount headerless_server tt = (Panics (IndexOutOfRange 0 0), tt)
  /\ UserCount headerless_server tt = (Panics (IndexOutOfRange 0 0), tt).
Proof. repeat split; vm_compute; reflexivity. Qed.

(** ** [GetLatestCommit] *)

(** C8 (as amended): [GetLatestCommit] returns an error of the request as it
    is, with or without a response; without such an error, for a status
    other than 200 an [errorString] that names the status code; for status
    200 and an empty list the [errorString] "this repo has no commits"; for
    status 200 and a list that is not empty the ID of the first commit.
    These are all the errors it returns, and the last two have the same
    dynamic type: neither is of a type of its own. *)
Theorem GetLatestCommit_cases {W} (g : GitlabServer W) (p : Project.t) (w : W) r w1 :
  ListCommits (client g) (Project.ID p) w = (r, w1) ->
  (forall e, err r = Some e -> GetLatestCommit g p w = (Returns (EmptyString, Some e), w1))
  /\ (forall rs first rest,
      err r = None -> resp r = Some rs -> Response.StatusCode rs = 200 ->
      items r = first :: rest ->
      GetLatestCommit g p w = (Returns (Commit.ID first, None), w1))
  /\ (forall rs,
      err r = None -> resp r = Some rs -> Response.StatusCode rs = 200 -> items r = [] ->
      GetLatestCommit g p w
      = (Returns (EmptyString, Some (errorString "this repo has no commits")), w1))
  /\ (forall rs,
      err r = None -> resp r = Some rs -> Response.StatusCode rs <> 200 ->
      GetLatestCommit g p w
      = (Returns (EmptyString, Some (errorString
                              ("status code " +:+ pretty (Response.StatusCode rs)
                               +:+ " not expected, expecting 200"))), w1))
  /\ (forall s e w2,
      GetLatestCommit g p w = (Returns (s, Some e), w2) ->
      s = EmptyString /\ w2 = w1
      /\ (err r = Some e
          \/ (err r = None
              /\ exists rs, resp r = Some rs /\ Response.StatusCode rs <> 200
                            /\ e = unexpected_status (Response.StatusCode rs))
          \/ (err r = None
              /\ exists rs, resp r = Some rs /\ Response.StatusCode rs = 200
                            /\ items r = [] /\ e = no_commits)))
  /\ (forall code, dynamic_type no_commits = dynamic_type (unexpected_status code))
  /\ dynamic_type no_commits = T_errors_errorString.
Proof.
  intros Hlist. unfold GetLatestCommit, bind, perform, ret. rewrite Hlist.
  split; [|split; [|split; [|split; [|split; [|split]]]]].
  - intros e ->. reflexivity.
  - intros rs first rest -> -> Hcode ->. rewrite Hcode. reflexivity.
  - intros rs -> -> Hcode ->. rewrite Hcode. reflexivity.
  - intros rs -> -> Hcode. destruct (Z.eqb_spec (Response.StatusCode rs) http_StatusOK);
      [contradiction | reflexivity].
  - intros s e w2. destruct (err r) as [e'|]; [intros [= <- <- <-]; auto|].
    destruct (resp r) as [rs|]; [|discriminate].
    destruct (Z.eqb_spec (Response.StatusCode rs) http_StatusOK) as [Hok|Hno]; cbn [negb].
    + destruct (items r); intros [= <- <- <-].
      split; [reflexivity|]. split; [reflexivity|]. right. right.
      split; [reflexivity|]. exists rs. auto.
    + intros [= <- <- <-]. split; [reflexivity|]. split; [reflexivity|]. right. left.
      split; [reflexivity|]. exists rs. auto.
  - reflexivity.
  - reflexivity.
Qed.

(** A repository with two commits, and a request that fails below HTTP, with
    no response. *)
Lemma GetLatestCommit_cases_witness :
  GetLatestCommit (host_server (listed [commit "4f2a"; commit "09bc"] 0) (listed [] 0)) p1 tt
  = (Returns ("4f2a", None), tt)
  /\ GetLatestCommit (host_server (failed None connection_refused) (listed [] 0)) p1 tt
     = (Returns (EmptyString, Some connection_refused), tt).
Proof.
  split.
  - exact (proj1 (proj2 (GetLatestCommit_cases
                           (host_server (listed [commit "4f2a"; commit "09bc"] 0)
                              (listed [] 0))
                           p1 tt (listed [commit "4f2a"; commit "09bc"] 0) tt eq_refl))
             (response_200 None 0) (commit "4f2a") [commit "09bc"]
             eq_refl eq_refl eq_refl eq_refl).
  - exact (proj1 (GetLatestCommit_cases
                    (host_server (failed None connection_refused) (listed [] 0))
                    p1 tt (failed None connection_refused) tt eq_refl)
             connection_refused eq_refl).
Defined.

(** C8, as stated, fails: the error for an empty repository is not of a type
    of its own; it is an [errorString], a message and nothing else. *)
Lemma GetLatestCommit_untyped_counterexample :
  exists e_empty,
    GetLatestCommit (host_server (listed [] 0) (listed [] 0)) p1 tt
    = (Returns (EmptyString, Some e_empty), tt)
    /\ e_empty = errorString "this repo has no commits"
    /\ dynamic_type e_empty = T_errors_errorString.
Proof.
  exists (errorString "this repo has no commits").
  repeat split; vm_compute; reflexivity.
Qed.

(** ** [ProjectExists] *)

Lemma same_name_scan_true name l :
  same_name_scan name l = (true, None, None) <-> Forall (fun p => Project.Name p = name) l.
Proof.
  induction l as [|p l IH]; cbn.
  - split; [intros _; constructor | reflexivity].
  - destruct (String.eqb_spec name (Project.Name p)) as [Heq|Hne]; cbn [negb].
    + rewrite IH. split; [intros H; constructor; auto | intros H; inversion H; assumption].
    + split; [discriminate | intros H; inversion H; congruence].
Qed.

Lemma same_name_scan_cases name l :
  same_name_scan name l = (true, None, None) \/ same_name_scan name l = (false, None, None).
Proof.
  induction l as [|p l IH]; cbn; [left; reflexivity|].
  destruct (negb _); [right; reflexivity | exact IH].
Qed.

(** C10: when the search returns without an error, [ProjectExists] answers
    true exactly when the candidate list is not empty and every candidate
    has the name asked for; one candidate of another name makes it false,
    whatever the other candidates are; an empty list makes it false.  The
    response and the error it returns are nil in all these cases. *)
Theorem ProjectExists_all_candidates {W} (g : GitlabServer W) (gid : Z) (projectName : string)
    (w : W) r w1 :
  ListGroupProjects (client g) gid (group_projects_options projectName) w = (r, w1) ->
  err r = None ->
  exists found,
    ProjectExists g gid projectName w = (Returns (found, None, None), w1)
    /\ (found = true <->
        items r <> [] /\ Forall (fun p => Project.Name p = projectName) (items r))
    /\ (forall p, p ∈ items r -> Project.Name p <> projectName -> found = false)
    /\ (items r = [] -> found = false).
Proof.
  intros Hlist Herr. unfold ProjectExists, bind, perform, ret. rewrite Hlist, Herr.
  destruct (items r) as [|p0 l] eqn:Hitems.
  - exists false. split; [reflexivity|]. split; [|split].
    + split; [discriminate | intros [Hne _]; congruence].
    + intros p Hp. inversion Hp.
    + reflexivity.
  - destruct (same_name_scan_cases projectName (p0 :: l)) as [Hs|Hs]; rewrite Hs.
    + exists true. apply same_name_scan_true in Hs. split; [reflexivity|]. split; [|split].
      * split; [intros _; split; [discriminate | exact Hs] | reflexivity].
      * intros p Hp Hne. rewrite Forall_forall in Hs. specialize (Hs p Hp). congruence.
      * discriminate.
    + exists false. split; [reflexivity|]. split; [|split].
      * split; [discriminate|]. intros [_ Hall]. apply same_name_scan_true in Hall. congruence.
      * reflexivity.
      * reflexivity.
Qed.

(** One candidate has another name: the answer is false although the first
    candidate has the name asked for. *)
Lemma ProjectExists_all_candidates_witness :
  ProjectExists (host_server (listed [] 0) (listed [p1; p2] 0)) 5 "alpha" tt
  = (Returns (false, None, None), tt).
Proof.
  destruct (ProjectExists_all_candidates
              (host_server (listed [] 0) (listed [p1; p2] 0)) 5 "alpha" tt
              (listed [p1; p2] 0) tt eq_refl eq_refl) as (found & Hrun & _ & Hdiff & _).
  rewrite Hrun. rewrite (Hdiff p2); [reflexivity | | discriminate].
  right. left.
Defined.

(** ** [Groups] *)

Section GroupsFacts.
Context {W : Type} (c : Client W).

Lemma set_Page_groups_options page next :
  set_Page (groups_options page) next = groups_options next.
Proof. reflexivity. Qed.

(** a walk that ends is what the loop computes, given one round of fuel per page *)
Lemma Groups_loop_walk page w pages w2 :
  cursor_walk c page w pages w2 ->
  forall fuel groups, (length pages <= fuel)%nat ->
    Groups_loop c fuel (groups_options page) groups w
    = Some (Returns (groups ++ concat pages, None), w2).
Proof.
  induction 1 as [page w r rs w1 Hlist Herr Hresp Hnext
                 |page w r rs w1 rest w2 Hlist Herr Hresp Hnext _ IH];
    intros [|fuel] groups Hfuel; cbn in Hfuel; try lia;
    cbn [Groups_loop]; rewrite Hlist, Herr, Hresp.
  - rewrite Hnext. cbn [Z.eqb concat]. rewrite app_nil_r. reflexivity.
  - destruct (Z.eqb_spec (Response.NextPage rs) 0); [contradiction|].
    rewrite set_Page_groups_options, IH by lia.
    cbn [concat]. rewrite app_assoc. reflexivity.
Qed.

(** a failing fetch ends the loop at once, with the error and no groups *)
Lemma Groups_loop_abort page w e w2 k :
  cursor_abort c page w e w2 k ->
  forall fuel groups, (k <= fuel)%nat ->
    Groups_loop c fuel (groups_options page) groups w = Some (Returns ([], Some e), w2).
Proof.
  induction 1 as [page w r e w1 Hlist Herr
                 |page w r rs w1 e w2 k Hlist Herr Hresp Hnext _ IH];
    intros [|fuel] groups Hfuel; try lia;
    cbn [Groups_loop]; rewrite Hlist, Herr.
  - reflexivity.
  - rewrite Hresp. destruct (Z.eqb_spec (Response.NextPage rs) 0); [contradiction|].
    rewrite set_Page_groups_options. apply IH. lia.
Qed.

(** what the loop returns comes from a walk *)
Lemma Groups_loop_returns fuel : forall page groups w gs oe w2,
  Groups_loop c fuel (groups_options page) groups w = Some (Returns (gs, oe), w2) ->
  match oe with
  | None => exists pages, cursor_walk c page w pages w2 /\ gs = groups ++ concat pages
  | Some e => gs = [] /\ exists k, cursor_abort c page w e w2 k
  end.
Proof.
  induction fuel as [|fuel IH]; intros page groups w gs oe w2; cbn [Groups_loop];
    [discriminate|].
  destruct (ListGroups c (groups_options page) w) as [r w1] eqn:Hlist.
  destruct (err r) as [e|] eqn:Herr.
  - intros [= <- <- <-]. split; [reflexivity|]. exists 1%nat. eapply abort_here; eassumption.
  - destruct (resp r) as [rs|] eqn:Hresp; [|discriminate].
    destruct (Z.eqb_spec (Response.NextPage rs) 0) as [Hnext|Hnext].
    + intros [= <- <- <-]. exists [items r]. split.
      * eapply walk_last; eassumption.
      * cbn [concat]. rewrite app_nil_r. reflexivity.
    + rewrite set_Page_groups_options. intros Hrec. apply IH in Hrec.
      destruct oe as [e|].
      * destruct Hrec as [-> [k Hk]]. split; [reflexivity|].
        exists (S k). eapply abort_later; eassumption.
      * destruct Hrec as [pages [Hwalk ->]]. exists (items r :: pages). split.
        -- eapply walk_next; eassumption.
        -- cbn [concat]. rewrite app_assoc. reflexivity.
Qed.

End GroupsFacts.

(** C4 (as amended): after a group count that [make] accepts as a capacity,
    [Groups] starts at page 1, appends the items of each page, goes on with
    the next-page index of each response, and returns all the items exactly
    when a response has the next-page index zero; a failing fetch ends it
    at once with that error and no further fetch. *)
Theorem Groups_follows_cursor {W} (g : GitlabServer W) (w : W) n w1 :
  GroupCount g w = (Returns (n, None), w1) -> 0 <= n <= maxCap ->
  (forall pages w2,
      cursor_walk (client g) 1 w1 pages w2 ->
      forall fuel, (length pages <= fuel)%nat ->
        Groups g fuel w = Some (Returns (concat pages, None), w2))
  /\ (forall fuel gs w2,
      Groups g fuel w = Some (Returns (gs, None), w2) ->
      exists pages, cursor_walk (client g) 1 w1 pages w2 /\ gs = concat pages)
  /\ (forall e w2 k,
      cursor_abort (client g) 1 w1 e w2 k ->
      forall fuel, (k <= fuel)%nat -> Groups g fuel w = Some (Returns ([], Some e), w2))
  /\ (forall fuel gs e w2,
      Groups g fuel w = Some (Returns (gs, Some e), w2) ->
      gs = [] /\ exists k, cursor_abort (client g) 1 w1 e w2 k).
Proof.
  intros Hcount Hn.
  assert (Hrun : forall fuel,
             Groups g fuel w = Groups_loop (client g) fuel (groups_options 1) [] w1).
  { intros fuel. unfold Groups, make_slice. rewrite Hcount, cap_in_range by assumption.
    reflexivity. }
  split; [|split; [|split]].
  - intros pages w2 Hwalk fuel Hfuel. rewrite Hrun.
    rewrite (Groups_loop_walk _ _ _ _ _ Hwalk) by assumption. reflexivity.
  - intros fuel gs w2. rewrite Hrun. intros Hloop.
    exact (Groups_loop_returns _ _ _ _ _ _ None _ Hloop).
  - intros e w2 k Habort fuel Hfuel. rewrite Hrun.
    apply (Groups_loop_abort _ _ _ _ _ _ Habort). assumption.
  - intros fuel gs e w2. rewrite Hrun. intros Hloop.
    exact (Groups_loop_returns _ _ _ _ _ _ (Some e) _ Hloop).
Qed.

Lemma three_group_walk :
  cursor_walk (client group_server) 1 tt [[gA]; [gB]; [gC]] tt.
Proof.
  eapply (walk_next _ 1 tt (three_group_pages 1)); [reflexivity..|discriminate|].
  eapply (walk_next _ 2 tt (three_group_pages 2)); [reflexivity..|discriminate|].
  eapply (walk_last _ 3 tt (three_group_pages 3)); reflexivity.
Defined.

(** The pages chained 1, 2, 3, 0 of the specification. *)
Lemma Groups_follows_cursor_witness :
  Groups group_server 3 tt = Some (Returns ([gA; gB; gC], None), tt).
Proof.
  refine (proj1 (Groups_follows_cursor group_server tt 3 tt _ _)
            [[gA]; [gB]; [gC]] tt three_group_walk 3%nat _).
  - vm_compute. reflexivity.
  - vm_compute. split; discriminate.
  - cbn. lia.
Defined.

(** C4, as stated, fails: the pages are chained 1, 2, 3, 0 and every fetch
    would succeed, but [Groups] asks for the count first.  When the count
    request fails it returns that error, and when the count is beyond what
    [make] accepts it panics; in both cases no page is asked for. *)
Lemma Groups_count_first_counterexample :
  cursor_walk (client count_refused_server) 1 tt [[gA]; [gB]; [gC]] tt
  /\ (forall fuel,
      Groups count_refused_server fuel tt = Some (Returns ([], Some connection_refused), tt))
  /\ cursor_walk (client over_capacity_server) 1 tt [[gA]; [gB]; [gC]] tt
  /\ (forall fuel,
      Groups over_capacity_server fuel tt = Some (Panics MakesliceCapOutOfRange, tt)).
Proof.
  split; [|split; [|split]].
  - eapply (walk_next _ 1 tt (three_group_pages 1)); [reflexivity..|discriminate|].
    eapply (walk_next _ 2 tt (three_group_pages 2)); [reflexivity..|discriminate|].
    eapply (walk_last _ 3 tt (three_group_pages 3)); reflexivity.
  - intros fuel. reflexivity.
  - eapply (walk_next _ 1 tt (three_group_pages 1)); [reflexivity..|discriminate|].
    eapply (walk_next _ 2 tt (three_group_pages 2)); [reflexivity..|discriminate|].
    eapply (walk_last _ 3 tt (three_group_pages 3)); reflexivity.
  - intros fuel. unfold Groups.
    assert (Hc : GroupCount over_capacity_server tt = (Returns (35184372088833, None), tt))
      by (vm_compute; reflexivity).
    rewrite Hc. unfold make_slice.
    assert (Hcap : cap_out_of_range PtrSize 35184372088833 = true)
      by (vm_compute; reflexivity).
    rewrite Hcap. reflexivity.
Qed.

(** The second page fails: the groups of the first page are dropped, the
    third page is not asked for. *)
Example Groups_second_page_fails :
  Groups failing_group_server 5 tt = Some (Returns ([], Some connection_refused), tt).
Proof. vm_compute. reflexivity. Qed.

(** ** [Projects] *)

Lemma concat_insert_empty {A} (L : list (list A)) i x :
  L !! i = Some [] -> concat (<[i := x]> L) ≡ₚ concat L ++ x.
Proof.
  intros Hi. pose proof (lookup_lt_Some _ _ _ Hi) as Hlt.
  rewrite insert_take_drop by assumption.
  rewrite <- (take_drop_middle L i [] Hi) at 3.
  rewrite !concat_app. cbn [concat app].
  rewrite <- app_assoc. apply Permutation_app_head, Permutation_app_comm.
Qed.

Lemma sum_list_with_insert {A} (f : A -> nat) (l : list A) i x y :
  l !! i = Some x ->
  (sum_list_with f (<[i := y]> l) + f x = sum_list_with f l + f y)%nat.
Proof.
  intros Hi. pose proof (lookup_lt_Some _ _ _ Hi) as Hlt.
  rewrite insert_take_drop by assumption.
  rewrite <- (take_drop_middle l i x Hi) at 3.
  rewrite !sum_list_with_app. cbn [sum_list_with]. lia.
Qed.

Lemma filter_all_length {A} (P : A -> Prop) `{!forall x, Decision (P x)} (l : list A) :
  length (filter P l) = length l -> Forall P l.
Proof.
  induction l as [|x l IH]; [constructor|].
  rewrite filter_cons. destruct (decide (P x)) as [Hx|Hx]; cbn [length].
  - intros [= Hlen]. constructor; auto.
  - intros Hlen. pose proof (length_filter P l). lia.
Qed.

Lemma report_panics page r pn : report page r = Panics pn -> pn = NilDereference.
Proof.
  unfold report. destruct (err r); [|discriminate].
  destruct (resp r); [discriminate|]. intros [= <-]. reflexivity.
Qed.

Lemma report_without_error page r : err r = None -> report page r = Returns [].
Proof. unfold report. intros ->. reflexivity. Qed.

Section ProjectsFacts.
Context {W : Type} (c : Client W) (pages : Z).
Hypothesis pages_nonneg : 0 <= pages.

(** What holds in every state of a run: the loop variable is in range; the
    goroutines launched so far are those of the pages before it, in order;
    the shared slice holds the items of the goroutines that are done, in
    some order; what a goroutine holds was returned by [ListProjects] for
    its page and passed the error branch. *)
Record run_inv (st : pool W) : Prop :=
  { inv_page : 1 <= page st <= pages + 1;
    inv_launched : map task_page (tasks st) = page_range 1 (page st - 1);
    inv_projects : projects st ≡ₚ concat (map appended (tasks st));
    inv_listed : forall t r,
        t ∈ tasks st -> task_listing t = Some r ->
        exists w w' out,
          ListProjects c (projects_options (task_page t)) w = (r, w')
          /\ report (task_page t) r = Returns out }.

Lemma run_inv_start w : run_inv (pool_start w).
Proof.
  constructor; cbn.
  - lia.
  - reflexivity.
  - reflexivity.
  - intros t r Ht. inversion Ht.
Qed.

Lemma elem_of_insert_inv (l : list task) i x t :
  t ∈ <[i := x]> l -> t = x \/ t ∈ l.
Proof.
  intros Ht. apply list_elem_of_lookup in Ht as [j Hj].
  apply list_lookup_insert_Some in Hj as [(_ & -> & _) | (_ & Hj)]; [left; reflexivity|].
  right. eapply list_elem_of_lookup_2, Hj.
Qed.

Lemma run_inv_step st st' : step c pages st st' -> run_inv st -> run_inv st'.
Proof.
  intros Hstep [Hpage Hlaunched Hprojects Hlisted].
  destruct Hstep as [st Hlt | st i p r w' out Hi Hlist Hreport | st i p r Hi];
    constructor; cbn [page tasks projects remote stdout].
  - lia.
  - rewrite map_app, Hlaunched. unfold page_range. cbn [map task_page].
    replace (page st + 1 - 1 + 1 - 1) with ((page st - 1 + 1 - 1) + 1) by lia.
    rewrite seqZ_app by lia. f_equal.
    replace (1 + (page st - 1 + 1 - 1)) with (page st) by lia. reflexivity.
  - rewrite map_app, concat_app. cbn. rewrite !app_nil_r. exact Hprojects.
  - intros t r Ht. apply elem_of_app in Ht as [Ht|Ht]; [eauto|].
    apply list_elem_of_singleton in Ht as ->. discriminate.
  - exact Hpage.
  - rewrite <- Hlaunched. change map with (@fmap list _). rewrite list_fmap_insert.
    apply list_insert_id. rewrite list_lookup_fmap, Hi. reflexivity.
  - rewrite Hprojects. change map with (@fmap list _). rewrite list_fmap_insert.
    rewrite list_insert_id; [reflexivity|]. rewrite list_lookup_fmap, Hi. reflexivity.
  - intros t r0 Ht Hr0. apply elem_of_insert_inv in Ht as [->|Ht]; [|eauto].
    cbn in Hr0. injection Hr0 as <-. cbn [task_page]. eauto.
  - exact Hpage.
  - rewrite <- Hlaunched. change map with (@fmap list _). rewrite list_fmap_insert.
    apply list_insert_id. rewrite list_lookup_fmap, Hi. reflexivity.
  - change map with (@fmap list _). rewrite list_fmap_insert.
    rewrite concat_insert_empty by (rewrite list_lookup_fmap, Hi; reflexivity).
    cbn [appended]. apply Permutation_app_tail. exact Hprojects.
  - intros t r0 Ht Hr0. apply elem_of_insert_inv in Ht as [->|Ht]; [|eauto].
    cbn in Hr0. injection Hr0 as <-. cbn [task_page].
    apply (Hlisted (Fetched p r) r); [eapply list_elem_of_lookup_2, Hi | reflexivity].
Qed.

Lemma run_inv_reachable w st : rtc (step c pages) (pool_start w) st -> run_inv st.
Proof.
  intros Hrun.
  apply (rtc_ind_r (R := step c pages) (fun st => run_inv st) (pool_start w));
    [apply run_inv_start| |exact Hrun].
  intros y z _ Hstep IH. eapply run_inv_step; eassumption.
Qed.

(** *** When [wg.Wait] returns *)

Lemma joined_all_finished st :
  run_inv st -> joined pages st ->
  page st = pages + 1
  /\ length (tasks st) = Z.to_nat pages
  /\ Forall (fun t => is_finished t = true) (tasks st).
Proof.
  intros [Hpage Hlaunched _ _] [Hloop Hcounter].
  assert (Hp : page st = pages + 1) by lia.
  assert (Hlen : length (tasks st) = Z.to_nat pages).
  { rewrite <- (length_map task_page), Hlaunched. unfold page_range.
    rewrite length_seqZ. lia. }
  repeat split; try assumption.
  apply (filter_all_length (fun t => is_finished t = true)).
  unfold wg_counter in Hcounter. lia.
Qed.

Lemma finished_appended t : is_finished t = true -> appended t = page_items t.
Proof. destruct t; [discriminate..|reflexivity]. Qed.

Lemma joined_projects st :
  run_inv st -> joined pages st ->
  map task_page (tasks st) = page_range 1 pages
  /\ projects st ≡ₚ concat (map page_items (tasks st))
  /\ length (projects st) = sum_list_with (fun t => length (page_items t)) (tasks st).
Proof.
  intros Hinv Hjoin. destruct (joined_all_finished st Hinv Hjoin) as (Hp & Hlen & Hfin).
  destruct Hinv as [_ Hlaunched Hprojects _].
  assert (Happ : map appended (tasks st) = map page_items (tasks st)).
  { apply map_ext_Forall. eapply Forall_impl; [exact Hfin|]. apply finished_appended. }
  assert (Hperm : projects st ≡ₚ concat (map page_items (tasks st)))
    by (rewrite <- Happ; exact Hprojects).
  repeat split.
  - rewrite Hlaunched, Hp. f_equal. lia.
  - exact Hperm.
  - rewrite Hperm. clear. induction (tasks st) as [|t l IH]; [reflexivity|].
    cbn [map concat sum_list_with]. rewrite length_app, IH. reflexivity.
Qed.

(** *** Every run comes to an end *)

Lemma step_weight st st' :
  step c pages st st' -> run_weight pages st = S (run_weight pages st').
Proof.
  intros [st0 Hlt | st0 i p r w' out Hi Hlist Hreport | st0 i p r Hi];
    unfold run_weight; cbn [page tasks].
  - rewrite sum_list_with_app. cbn [sum_list_with task_weight]. lia.
  - pose proof (sum_list_with_insert task_weight _ i _ (Fetched p r) Hi) as Hs.
    cbn [task_weight] in Hs. lia.
  - pose proof (sum_list_with_insert task_weight _ i _ (Finished p r) Hi) as Hs.
    cbn [task_weight] in Hs. lia.
Qed.


(** a state that has not joined can move: a launch, a fetch, an append, or
    the panic of a goroutine *)
Lemma run_progress st :
  run_inv st -> ~ joined pages st ->
  (exists st', step c pages st st') \/ (exists pn w', crash c st pn w').
Proof.
  intros Hinv Hnot.
  destruct (Z.lt_ge_cases (page st) (pages + 1)) as [Hlt|Hge].
  { left. eexists. apply step_go. exact Hlt. }
  assert (Hunfinished : exists i t, tasks st !! i = Some t /\ is_finished t = false).
  { destruct (decide (Forall (fun t => is_finished t = true) (tasks st))) as [Hall|Hsome].
    - exfalso. apply Hnot. split; [lia|]. unfold wg_counter.
      assert (filter (fun t => is_finished t = true) (tasks st) = tasks st) as ->.
      { clear -Hall. induction Hall as [|t l Ht _ IH]; [reflexivity|].
        rewrite filter_cons_True by assumption. f_equal. exact IH. }
      destruct Hinv as [Hpage Hlaunched _ _].
      rewrite <- (length_map task_page), Hlaunched. unfold page_range.
      rewrite length_seqZ. lia.
    - apply not_Forall_Exists in Hsome; [|intros t; apply _].
      apply Exists_exists in Hsome as (t & Ht & Hft).
      apply list_elem_of_lookup in Ht as [i Hi]. exists i, t. split; [exact Hi|].
      unfold compose in Hft.
      destruct (is_finished t) eqn:Ef; [exfalso; apply Hft; reflexivity | reflexivity]. }
  destruct Hunfinished as (i & t & Hi & Hft).
  destruct t as [p|p r|p r]; [| |discriminate].
  - destruct (ListProjects c (projects_options p) (remote st)) as [r w'] eqn:Hlist.
    destruct (report p r) as [out|pn] eqn:Hreport.
    + left. eexists. eapply step_list; eassumption.
    + right. exists pn, w'. eapply crash_report; eassumption.
  - left. eexists. eapply step_append. exact Hi.
Qed.

Lemma joined_or_not (st : pool W) : joined pages st \/ ~ joined pages st.
Proof.
  unfold joined.
  destruct (Z.lt_ge_cases (page st) (pages + 1)), (Z.eq_dec (wg_counter pages st) 0);
    (left; split; [lia | assumption]) || (right; intros [? ?]; lia).
Qed.

Lemma run_finishes k : forall st,
  run_weight pages st = k -> run_inv st ->
  exists st', rtc (step c pages) st st'
              /\ (joined pages st' \/ exists pn w', crash c st' pn w').
Proof.
  induction k as [|k IH]; intros st Hw Hinv.
  - destruct (joined_or_not st) as [Hj|Hj].
    + exists st. split; [constructor | left; exact Hj].
    + destruct (run_progress st Hinv Hj) as [[st' Hstep]|Hcrash].
      * apply step_weight in Hstep. lia.
      * exists st. split; [constructor | right; exact Hcrash].
  - destruct (joined_or_not st) as [Hj|Hj].
    + exists st. split; [constructor | left; exact Hj].
    + destruct (run_progress st Hinv Hj) as [[st' Hstep]|Hcrash].
      * destruct (IH st') as (st'' & Hrun & Hend).
        -- apply step_weight in Hstep. lia.
        -- eapply run_inv_step; eassumption.
        -- exists st''. split; [eapply rtc_l; eassumption | exact Hend].
      * exists st. split; [constructor | right; exact Hcrash].
Qed.

(** without a panic, some run joins *)
Lemma run_joins w :
  (forall st pn w', ~ crash c st pn w') ->
  exists st, rtc (step c pages) (pool_start w) st /\ joined pages st.
Proof.
  intros Hsafe.
  destruct (run_finishes _ (pool_start w) eq_refl (run_inv_start w))
    as (st & Hrun & [Hj|(pn & w' & Hcrash)]).
  - exists st. split; assumption.
  - exfalso. exact (Hsafe _ _ _ Hcrash).
Qed.

(** a goroutine panics only on an error that comes without a response *)
Lemma crash_missing_response st pn w' :
  crash c st pn w' ->
  pn = NilDereference
  /\ exists p w e, err (ListProjects c (projects_options p) w).1 = Some e
                   /\ resp (ListProjects c (projects_options p) w).1 = None.
Proof.
  intros [st0 i p r w0 pn0 Hi Hlist Hreport].
  split; [eapply report_panics, Hreport|].
  exists p, (remote st0). rewrite Hlist. cbn [fst].
  unfold report in Hreport. destruct (err r) as [e|]; [|discriminate].
  exists e. split; [reflexivity|]. destruct (resp r); [discriminate | reflexivity].
Qed.

End ProjectsFacts.

Lemma ProjectCount_int {W} (g : GitlabServer W) w n w' :
  ProjectCount g w = (Returns (n, None), w') -> minInt <= n <= maxInt.
Proof. apply count_of_int. Qed.


(** with a count up to [maxCount], [make] and [wg.Add] go through, and what
    [Projects] ends with is the end of a run of the goroutines: the panic of
    one of them, or the return of [wg.Wait] *)
Lemma Projects_small_count {W} (g : GitlabServer W) (w : W) n w1 out w2 :
  ProjectCount g w = (Returns (n, None), w1) -> 0 <= n <= maxCount ->
  Projects g w out w2
  <-> exists st,
        rtc (step (client g) (pagesToCheck n)) (pool_start w1) st
        /\ ((exists pn, out = Panics pn /\ crash (client g) st pn w2)
            \/ (out = Returns (projects st, None) /\ w2 = remote st
                /\ joined (pagesToCheck n) st)).
Proof.
  intros Hcount Hn. destruct (small_count n Hn) as (_ & _ & Hcap & Hadd). split.
  - intros Hrun.
    inversion Hrun as [pn w3 Hc | n0 e w3 Hc | n0 w3 Hc Hout | n0 w3 pn Hc Hin Hneg
                      | n0 w3 st pn w4 Hc Hin Hstored Hsteps Hcrash
                      | n0 w3 st Hc Hin Hstored Hsteps Hjoin];
      subst; rewrite Hcount in Hc; try discriminate; injection Hc as <- <-;
      try congruence.
    + exists st. split; [exact Hsteps|]. left. exists pn. auto.
    + exists st. split; [exact Hsteps|]. right. auto.
  - intros (st & Hsteps & [(pn & -> & Hcrash) | (-> & -> & Hjoin)]).
    + eapply Projects_crashes; eassumption.
    + eapply Projects_returns; eassumption.
Qed.






Lemma pages_of_150 : pagesToCheck 150 = 2.
Proof. vm_compute. reflexivity. Defined.

Lemma count_150 : 0 <= 150 <= maxCount.
Proof. vm_compute. split; discriminate. Defined.










(** The page count as an expression: beyond 2^53 the conversion to [float64]
    rounds, and for 9007199254741001 = 2^53 + 9 the result is one short of
    the ceiling.  [Projects] does not get that far with such a count:
    [make] panics before. *)
Lemma pagesToCheck_beyond_2_53 :
  Atoi "9007199254741001" = (9007199254741001, None)
  /\ pagesToCheck 9007199254741001 = 90071992547410
  /\ ~ is_ceiling 9007199254741001 ITEMS_PER_PAGE (pagesToCheck 9007199254741001)
  /\ cap_out_of_range PtrSize 9007199254741001 = true.
Proof.
  split; [vm_compute; reflexivity|].
  assert (H : pagesToCheck 9007199254741001 = 90071992547410) by (vm_compute; reflexivity).
  split; [exact H|]. split; [|vm_compute; reflexivity].
  rewrite H. unfold is_ceiling, ITEMS_PER_PAGE. lia.
Qed.

(** C9: in the goroutine of a page, a fetch that returns an error is
    reported with [resp.Status].  With a response at hand the report is
    written and the goroutine goes on to append what it got; with a nil
    response the report panics, the program stops, and no step takes the
    goroutine past its fetch. *)
Theorem error_report_reads_response {W} (c : Client W) (pages : Z) (st : pool W)
    (i : nat) (p : Z) (r : listing Project.t) (w' : W) (e : error) :
  tasks st !! i = Some (Launched p) ->
  ListProjects c (projects_options p) (remote st) = (r, w') ->
  err r = Some e ->
  (resp r = None ->
     report p r = Panics NilDereference
     /\ crash c st NilDereference w'
     /\ forall st', step c pages st st' -> tasks st' !! i = Some (Launched p))
  /\ (forall rs, resp r = Some rs ->
     report p r = Returns [ListingError e p (Response.Status rs)]
     /\ exists st1 st2,
         step c pages st st1 /\ tasks st1 !! i = Some (Fetched p r)
         /\ step c pages st1 st2 /\ tasks st2 !! i = Some (Finished p r)
         /\ projects st2 = projects st ++ items r).
Proof.
  intros Hi Hlist Herr.
  pose proof (lookup_lt_Some _ _ _ Hi) as Hlt. split.
  - intros Hresp.
    assert (Hreport : report p r = Panics NilDereference)
      by (unfold report; rewrite Herr, Hresp; reflexivity).
    split; [exact Hreport|]. split; [eapply crash_report; eassumption|].
    intros st' Hstep.
    inversion Hstep as [? Hgo | ? j q r0 w0 out Hj Hlist0 Hreport0 | ? j q r0 Hj];
      subst; cbn [tasks].
    + rewrite lookup_app_l by assumption. exact Hi.
    + destruct (decide (j = i)) as [->|Hne].
      * rewrite Hi in Hj. injection Hj as <-. rewrite Hlist in Hlist0.
        injection Hlist0 as <- <-. congruence.
      * rewrite list_lookup_insert_ne by assumption. exact Hi.
    + destruct (decide (j = i)) as [->|Hne]; [congruence|].
      rewrite list_lookup_insert_ne by assumption. exact Hi.
  - intros rs Hresp.
    assert (Hreport : report p r = Returns [ListingError e p (Response.Status rs)])
      by (unfold report; rewrite Herr, Hresp; reflexivity).
    split; [exact Hreport|].
    eexists. eexists. split; [eapply step_list; eassumption|]. cbn [tasks].
    split; [apply list_lookup_insert_eq; assumption|].
    split; [eapply (step_append _ _ _ i p r); cbn [tasks];
            apply list_lookup_insert_eq; assumption|].
    cbn [tasks projects]. split; [|reflexivity].
    apply list_lookup_insert_eq. rewrite length_insert. assumption.
Qed.

(** The first page of [refused_server] fails with no response. *)
Lemma error_report_reads_response_witness :
  crash (client refused_server)
    {| page := 2; tasks := [Launched 1]; projects := []; remote := tt;
       stdout := [ScanningPage 1 2] |}
    NilDereference tt.
Proof.
  refine (proj1 (proj2 (proj1 (error_report_reads_response (client refused_server) 2
                                 {| page := 2; tasks := [Launched 1]; projects := [];
                                    remote := tt; stdout := [ScanningPage 1 2] |}
                                 0%nat 1 (first_page_refused 1) tt connection_refused
                                 _ _ _) _)));
    reflexivity.
Defined.

(** a page whose fetch always ends in the panic of the report is never
    fetched, so no run joins *)
Lemma faulting_page_never_joins {W} (c : Client W) (pages : Z) (w : W) (p : Z) pn :
  0 <= pages -> 1 <= p <= pages ->
  (forall w0, report p (ListProjects c (projects_options p) w0).1 = Panics pn) ->
  forall st, rtc (step c pages) (pool_start w) st -> ~ joined pages st.
Proof.
  intros Hpages Hp Hfault st Hrun Hjoin.
  pose proof (run_inv_reachable c pages Hpages w st Hrun) as Hinv.
  destruct (joined_projects c pages st Hinv Hjoin) as (Hl & _ & _).
  destruct (joined_all_finished c pages st Hinv Hjoin) as (_ & _ & Hfin).
  assert (Hin : p ∈ map task_page (tasks st)).
  { rewrite Hl. unfold page_range. apply list_elem_of_lookup.
    exists (Z.to_nat (p - 1)). apply lookup_seqZ. lia. }
  apply list_elem_of_fmap in Hin as (t & -> & Ht).
  rewrite Forall_forall in Hfin. specialize (Hfin t Ht).
  destruct t as [q|q r|q r]; try discriminate.
  destruct (inv_listed c pages st Hinv (Finished q r) r Ht eq_refl)
    as (w0 & w0' & out & Hlist & Hreport).
  specialize (Hfault w0). cbn [task_page] in *. rewrite Hlist in Hfault. cbn in Hfault.
  congruence.
Qed.

(** Failed pages that come with a response are reported and survived: some
    run joins, none panics, and whatever a page returned is in the slice. *)
Lemma Projects_survives_reported_failures {W} (g : GitlabServer W) (w : W) (n : Z) (w1 : W) :
  ProjectCount g w = (Returns (n, None), w1) -> 0 <= n ->
  (forall o w' e, err (ListProjects (client g) o w').1 = Some e ->
                  resp (ListProjects (client g) o w').1 <> None) ->
  (exists st,
      rtc (step (client g) (pagesToCheck n)) (pool_start w1) st
      /\ joined (pagesToCheck n) st)
  /\ (forall st pn w2, ~ crash (client g) st pn w2)
  /\ (forall st t x,
      rtc (step (client g) (pagesToCheck n)) (pool_start w1) st ->
      joined (pagesToCheck n) st ->
      t ∈ tasks st -> x ∈ page_items t -> x ∈ projects st).
Proof.
  intros Hcount Hn Hresp.
  pose proof (ProjectCount_int g w n w1 Hcount) as Hint.
  destruct (pagesToCheck_int n ltac:(lia)) as [Hpages _].
  assert (Hsafe : forall st pn w2, ~ crash (client g) st pn w2).
  { intros st pn w2 Hcrash.
    destruct (crash_missing_response _ _ _ _ Hcrash) as (_ & p & w0 & e & He & Hnone).
    exact (Hresp _ _ _ He Hnone). }
  split; [apply run_joins; assumption|]. split; [exact Hsafe|].
  intros st t x Hrun Hjoin Ht Hx.
  pose proof (run_inv_reachable (client g) _ Hpages w1 st Hrun) as Hinv.
  destruct (joined_projects (client g) _ st Hinv Hjoin) as (_ & Hperm & _).
  rewrite Hperm. apply list_elem_of_In, in_concat. exists (page_items t).
  split; [apply in_map, list_elem_of_In, Ht | apply list_elem_of_In, Hx].
Qed.

(** With [X-Total: 0] no goroutine is launched and the empty slice is
    returned. *)
Example Projects_of_empty_server : Projects empty_server tt (Returns ([], None)) tt.
Proof.
  assert (Hc : ProjectCount empty_server tt = (Returns (0, None), tt))
    by (vm_compute; reflexivity).
  assert (H0 : pagesToCheck 0 = 0) by (vm_compute; reflexivity).
  apply (Projects_returns empty_server tt 0 tt (pool_start tt) Hc); rewrite ?H0;
    [reflexivity | reflexivity | apply rtc_refl | split; [cbn; lia | reflexivity]].
Qed.

Lemma refused_count : ProjectCount refused_server tt = (Returns (150, None), tt).
Proof. vm_compute. reflexivity. Qed.

(** C2 (the code departs from it): the first page of [refused_server] fails
    with an error and no response, the second succeeds.  No run of
    [Projects] returns: every run ends in the nil dereference of the error
    report, and there is such a run. *)
Theorem Projects_refused_page_panics :
  (forall out w', Projects refused_server tt out w' -> out = Panics NilDereference)
  /\ Projects refused_server tt (Panics NilDereference) tt.
Proof.
  pose proof refused_count as Hc. pose proof pages_of_150 as Hp. split.
  - intros out w' Hrun.
    apply (Projects_small_count refused_server tt 150 tt out w' Hc count_150) in Hrun
      as (st & Hsteps & [(pn & -> & Hcrash) | (_ & _ & Hjoin)]).
    + inversion Hcrash as [? i p r w0 ? Hi Hlist Hreport]; subst.
      f_equal. eapply report_panics, Hreport.
    + exfalso. rewrite Hp in *.
      apply (faulting_page_never_joins (client refused_server) 2 tt 1 NilDereference
               ltac:(lia) ltac:(lia) (fun _ => eq_refl) st Hsteps Hjoin).
  - apply (Projects_small_count refused_server tt 150 tt _ _ Hc count_150).
    exists {| page := 2; tasks := [Launched 1]; projects := []; remote := tt;
              stdout := [ScanningPage 1 (pagesToCheck 150)] |}.
    split.
    + eapply rtc_l; [apply step_go; rewrite Hp; cbn; lia|]. apply rtc_refl.
    + left. exists NilDereference. split; [reflexivity|].
      apply (crash_report _ _ 0%nat 1 (first_page_refused 1) tt); reflexivity.
Qed.

(** ** Further properties: the count operations *)

Lemma digit_value_range c : is_digit c = true -> 0 <= digit_value c <= 9.
Proof.
  unfold is_digit, digit_value. intros H. apply andb_true_iff in H as [Hlo Hhi].
  apply Nat.leb_le in Hlo, Hhi. lia.
Qed.

Lemma decimal_from_le s : forall n, 0 <= n -> all_digits s = true -> n <= decimal_from n s.
Proof.
  induction s as [|c s IH]; intros n Hn Hd; cbn in *; [lia|].
  apply andb_true_iff in Hd as [Hc Hs]. pose proof (digit_value_range c Hc).
  etransitivity; [|apply IH; [lia | exact Hs]]. lia.
Qed.

(** on digits, the loop of [ParseUint] computes the number or overflows *)
Lemma parse_digits_decimal s : forall n,
  0 <= n <= maxUint64 -> all_digits s = true ->
  parse_digits s n
  = if maxUint64 <? decimal_from n s then inr ErrRange else inl (decimal_from n s).
Proof.
  induction s as [|c s IH]; intros n Hn Hd; cbn [parse_digits decimal_from].
  - destruct (Z.ltb_spec maxUint64 n); [lia | reflexivity].
  - cbn in Hd. apply andb_true_iff in Hd as [Hc Hs]. rewrite Hc.
    pose proof (digit_value_range c Hc).
    destruct (Z.ltb_spec maxUint64 (n * 10 + digit_value c)) as [Hover|Hfits].
    + pose proof (decimal_from_le s (n * 10 + digit_value c) ltac:(lia) Hs).
      destruct (Z.ltb_spec maxUint64 (decimal_from (n * 10 + digit_value c) s)); [reflexivity|lia].
    + apply IH; [lia | exact Hs].
Qed.

(** what the loop accepts is made of digits *)
Lemma parse_digits_all_digits s : forall n un,
  parse_digits s n = inl un -> all_digits s = true /\ un = decimal_from n s.
Proof.
  induction s as [|c s IH]; intros n un; cbn [parse_digits all_digits decimal_from].
  - intros [= <-]. split; reflexivity.
  - destruct (is_digit c); [|discriminate].
    destruct (maxUint64 <? n * 10 + digit_value c); [discriminate|].
    intros H. apply IH in H as [-> ->]. split; reflexivity.
Qed.

Lemma all_digits_not_sign c s :
  all_digits (String c s) = true -> c <> "-"%char /\ c <> "+"%char.
Proof.
  cbn. intros H. apply andb_true_iff in H as [Hc _].
  split; intros ->; vm_compute in Hc; discriminate.
Qed.

Lemma Atoi_unsigned c t :
  c <> "-"%char -> c <> "+"%char ->
  Atoi (String c t)
  = match parse_digits (String c t) 0 with
    | inr ErrSyntax => (0, Some (NumError "Atoi" (String c t) ErrSyntax))
    | inr ErrRange => (maxInt, Some (NumError "Atoi" (String c t) ErrRange))
    | inl un =>
        if maxInt <? un then (maxInt, Some (NumError "Atoi" (String c t) ErrRange))
        else (un, None)
    end.
Proof.
  intros Hm Hp. unfold Atoi.
  destruct c as [[] [] [] [] [] [] [] []]; try reflexivity; congruence.
Qed.

Lemma Atoi_signed (neg : bool) c t :
  Atoi (String (if neg then "-" else "+")%char (String c t))
  = match parse_digits (String c t) 0 with
    | inr ErrSyntax =>
        (0, Some (NumError "Atoi" (String (if neg then "-" else "+")%char (String c t))
                    ErrSyntax))
    | inr ErrRange =>
        (if neg then minInt else maxInt,
         Some (NumError "Atoi" (String (if neg then "-" else "+")%char (String c t)) ErrRange))
    | inl un =>
        if neg then
          if - minInt <? un
          then (minInt, Some (NumError "Atoi" (String "-"%char (String c t)) ErrRange))
          else (- un, None)
        else
          if maxInt <? un
          then (maxInt, Some (NumError "Atoi" (String "+"%char (String c t)) ErrRange))
          else (un, None)
    end.
Proof. destruct neg; reflexivity. Qed.

(** [Atoi] accepts exactly the decimal numerals of the [int]s *)
Lemma Atoi_numeral s n :
  Atoi s = (n, None) <-> numeral_of s n /\ minInt <= n <= maxInt.
Proof.
  split.
  - intros Ha. split; [|exact (Atoi_range s n Ha)].
    destruct s as [|c t]; [discriminate|].
    destruct (ascii_dec c "-") as [->|Hm]; [|destruct (ascii_dec c "+") as [->|Hp]].
    + destruct t as [|d ds]; [discriminate|]. rewrite (Atoi_signed true) in Ha.
      destruct (parse_digits (String d ds) 0) as [un|[]] eqn:Hpd; try discriminate.
      apply parse_digits_all_digits in Hpd as [Hd ->].
      destruct (- minInt <? _); [discriminate|]. injection Ha as <-.
      exists "-", (String d ds). repeat split; auto; discriminate.
    + destruct t as [|d ds]; [discriminate|]. rewrite (Atoi_signed false) in Ha.
      destruct (parse_digits (String d ds) 0) as [un|[]] eqn:Hpd; try discriminate.
      apply parse_digits_all_digits in Hpd as [Hd ->].
      destruct (maxInt <? _); [discriminate|]. injection Ha as <-.
      exists "+", (String d ds). repeat split; auto; discriminate.
    + rewrite Atoi_unsigned in Ha by assumption.
      destruct (parse_digits (String c t) 0) as [un|[]] eqn:Hpd; try discriminate.
      apply parse_digits_all_digits in Hpd as [Hd ->].
      destruct (maxInt <? _); [discriminate|]. injection Ha as <-.
      exists EmptyString, (String c t). repeat split; auto; discriminate.
  - intros [(sign & digits & -> & Hsign & Hne & Hd & ->) Hrange].
    destruct digits as [|d ds]; [congruence|].
    assert (Hpd := parse_digits_decimal (String d ds) 0 ltac:(unfold maxUint64; lia) Hd).
    destruct Hsign as [->|[->| ->]];
      [change (String.eqb EmptyString "-") with false in *
      |change (String.eqb "+" "-") with false in *
      |change (String.eqb "-" "-") with true in *]; cbv iota in *.
    + destruct (all_digits_not_sign d ds Hd) as [Hm Hp].
      change (EmptyString +:+ String d ds) with (String d ds).
      rewrite Atoi_unsigned, Hpd by assumption.
      destruct (Z.ltb_spec maxUint64 (decimal_from 0 (String d ds)));
        [unfold maxUint64, maxInt in *; lia|].
      destruct (Z.ltb_spec maxInt (decimal_from 0 (String d ds))); [lia | reflexivity].
    + change ("+" +:+ String d ds) with (String "+"%char (String d ds)).
      rewrite (Atoi_signed false), Hpd.
      destruct (Z.ltb_spec maxUint64 (decimal_from 0 (String d ds)));
        [unfold maxUint64, maxInt in *; lia|].
      destruct (Z.ltb_spec maxInt (decimal_from 0 (String d ds))); [lia | reflexivity].
    + change ("-" +:+ String d ds) with (String "-"%char (String d ds)).
      rewrite (Atoi_signed true), Hpd.
      destruct (Z.ltb_spec maxUint64 (decimal_from 0 (String d ds)));
        [unfold maxUint64, minInt in *; lia|].
      destruct (Z.ltb_spec (- minInt) (decimal_from 0 (String d ds))); [lia | reflexivity].
Qed.

Lemma pretty_N_char_digit k :
  (k < 10)%N ->
  is_digit (pretty_N_char k) = true /\ digit_value (pretty_N_char k) = Z.of_N k.
Proof.
  intros Hk.
  assert (H : (k = 0 \/ k = 1 \/ k = 2 \/ k = 3 \/ k = 4 \/ k = 5 \/ k = 6 \/ k = 7
               \/ k = 8 \/ k = 9)%N) by lia.
  repeat (destruct H as [->|H]); try subst k; split; reflexivity.
Qed.

(** the digits that [pretty] writes before [s] *)
Lemma pretty_N_go_digits x : forall s,
  all_digits (pretty_N_go x s) = all_digits s
  /\ decimal_from 0 (pretty_N_go x s) = decimal_from (Z.of_N x) s
  /\ (s <> EmptyString -> pretty_N_go x s <> EmptyString).
Proof.
  induction x as [x IH] using (well_founded_induction N.lt_wf_0). intros s.
  destruct (N.eq_dec x 0%N) as [->|Hx].
  - rewrite pretty_N_go_0. auto.
  - rewrite pretty_N_go_step by lia.
    assert (Hlt : (x `div` 10 < x)%N) by (apply N.div_lt; lia).
    assert (Hmod : (x `mod` 10 < 10)%N) by (apply N.mod_lt; lia).
    destruct (pretty_N_char_digit _ Hmod) as [Hd Hv].
    destruct (IH _ Hlt (String (pretty_N_char (x `mod` 10)) s)) as (Ha & Hdec & Hne).
    split; [|split].
    + rewrite Ha. cbn [all_digits]. rewrite Hd. reflexivity.
    + rewrite Hdec. cbn [decimal_from]. rewrite Hv. f_equal.
      pose proof (N.div_mod x 10 ltac:(lia)). lia.
    + intros _. apply Hne. discriminate.
Qed.

Lemma pretty_positive_digits p :
  all_digits (pretty (Npos p)) = true
  /\ decimal_from 0 (pretty (Npos p)) = Zpos p
  /\ pretty (Npos p) <> EmptyString.
Proof.
  unfold pretty, pretty_N. destruct (decide (Npos p = 0%N)) as [|_]; [discriminate|].
  rewrite (pretty_N_go_step (Npos p)) by lia.
  destruct (pretty_N_go_digits (Npos p `div` 10)
              (String (pretty_N_char (Npos p `mod` 10)) EmptyString)) as (Ha & Hdec & Hne).
  assert (Hmod : (Npos p `mod` 10 < 10)%N) by (apply N.mod_lt; lia).
  destruct (pretty_N_char_digit _ Hmod) as [Hd Hv].
  split; [|split].
  - rewrite Ha. cbn [all_digits]. rewrite Hd. reflexivity.
  - rewrite Hdec. cbn [decimal_from]. rewrite Hv.
    pose proof (N.div_mod (Npos p) 10 ltac:(lia)). lia.
  - apply Hne. discriminate.
Qed.

(** the decimal writing of an integer is a numeral of it *)
Lemma pretty_numeral (n : Z) : numeral_of (pretty n) n.
Proof.
  destruct n as [|p|p].
  - exists EmptyString, "0". repeat split; auto; discriminate.
  - destruct (pretty_positive_digits p) as (Ha & Hdec & Hne).
    exists EmptyString, (pretty (Npos p)). repeat split; auto.
  - destruct (pretty_positive_digits p) as (Ha & Hdec & Hne).
    exists "-", (pretty (Npos p)). repeat split; auto.
    change (String.eqb "-" "-") with true. cbv iota. rewrite Hdec. reflexivity.
Qed.

(** X1: once the request is answered with a response whose [X-Total] header
    has a first value [total], a count operation returns the count [n] with
    a nil error exactly when [total] is a decimal numeral of [n] (an
    optional sign, then digits only) and [n] is an [int]; otherwise it
    returns 0 with a [*strconv.NumError] of [Atoi] that quotes [total]. *)
Theorem count_accepts_numerals {W} (g : GitlabServer W) (path : string) (w : W)
    req w1 res w2 total values :
  NewRequest (client g) "GET" path w = ((req, None), w1) ->
  Do (client g) req w1 = ((Some res, None), w2) ->
  Response.Header res !! "X-Total" = Some (total :: values) ->
  (forall n,
      count_of g path w = (Returns (n, None), Body_Close (client g) res w2)
      <-> numeral_of total n /\ minInt <= n <= maxInt)
  /\ ((forall n, ~ (numeral_of total n /\ minInt <= n <= maxInt)) ->
      exists cause,
        count_of g path w
        = (Returns (0, Some (NumError "Atoi" total cause)), Body_Close (client g) res w2)).
Proof.
  intros Hreq Hdo Hh.
  rewrite (count_of_reads_header g path w req w1 res w2 Hreq Hdo), Hh.
  change (default [] (Some (total :: values))) with (total :: values). cbv beta iota.
  split.
  - intros n. rewrite <- Atoi_numeral.
    destruct (Atoi total) as [count [e|]]; split; intros H; try discriminate.
    + injection H as <-. reflexivity.
    + injection H as <-. reflexivity.
  - intros Hnot. destruct (Atoi total) as [count [e|]] eqn:Ha.
    + assert (exists cause, e = NumError "Atoi" total cause) as [cause ->]; [|eauto].
      clear -Ha. unfold Atoi in Ha.
      destruct (match total with
                | String "-"%char t => (true, t)
                | String "+"%char t => (false, t)
                | _ => (false, total)
                end) as [neg digits].
      destruct digits; [injection Ha as _ <-; eauto|].
      destruct (parse_digits _ 0) as [un|[]]; try (injection Ha as _ <-; eauto).
      destruct neg; [destruct (- minInt <? un) | destruct (maxInt <? un)];
        try discriminate; injection Ha as _ <-; eauto.
    + exfalso. apply (Hnot count). apply Atoi_numeral. exact Ha.
Qed.

Lemma count_accepts_numerals_witness :
  ProjectCount two_page_server tt = (Returns (150, None), tt).
Proof.
  refine (proj2 (proj1 (count_accepts_numerals two_page_server "projects" tt
                          {| Method := "GET"; Path := "projects" |} tt
                          (response_200 (Some "150") 0) tt "150" [] _ _ _) 150) _).
  - reflexivity.
  - reflexivity.
  - vm_compute. reflexivity.
  - split; [|vm_compute; split; discriminate].
    exists EmptyString, "150". repeat split; auto; discriminate.
Defined.

(** X2: a count written in decimal in the header is read back: when the
    first value of [X-Total] is the decimal writing of an [int] [n], the
    count operation returns [n] with a nil error. *)
Theorem count_reads_decimal {W} (g : GitlabServer W) (path : string) (w : W)
    req w1 res w2 (n : Z) values :
  NewRequest (client g) "GET" path w = ((req, None), w1) ->
  Do (client g) req w1 = ((Some res, None), w2) ->
  Response.Header res !! "X-Total" = Some (pretty n :: values) ->
  minInt <= n <= maxInt ->
  count_of g path w = (Returns (n, None), Body_Close (client g) res w2).
Proof.
  intros Hreq Hdo Hh Hn.
  rewrite (count_of_reads_header g path w req w1 res w2 Hreq Hdo), Hh.
  change (default [] (Some (pretty n :: values))) with (pretty n :: values). cbv beta iota.
  assert (Ha : Atoi (pretty n) = (n, None))
    by (apply Atoi_numeral; split; [apply pretty_numeral | exact Hn]).
  rewrite Ha. reflexivity.
Qed.

Lemma count_reads_decimal_witness :
  GroupCount group_server tt = (Returns (3, None), tt).
Proof.
  refine (count_reads_decimal group_server "groups" tt
            {| Method := "GET"; Path := "groups" |} tt
            (response_200 (Some "3") 0) tt 3 [] _ _ _ _).
  - reflexivity.
  - reflexivity.
  - vm_compute. reflexivity.
  - vm_compute. split; discriminate.
Defined.

(** X3: whatever the client answers, a count operation that returns an
    error returns the count 0 with it, and every count it returns is an
    [int]. *)
Theorem count_zero_with_error {W} (g : GitlabServer W) (path : string) (w : W) n oe w' :
  count_of g path w = (Returns (n, oe), w') ->
  (oe <> None -> n = 0) /\ minInt <= n <= maxInt.
Proof.
  intros Hc. destruct oe as [e|].
  - assert (n = 0) as ->; [|split; [reflexivity | vm_compute; split; discriminate]].
    revert Hc. unfold count_of, bind, perform, deferring, ret, fault.
    destruct (NewRequest (client g) "GET" path w) as [[req [e1|]] w1];
      [intros [= <- _ _]; reflexivity|].
    destruct (Do (client g) req w1) as [[res [e2|]] w2]; [intros [= <- _ _]; reflexivity|].
    destruct res as [res|]; [|discriminate].
    destruct (at_index _ 0) as [total|pn]; [|discriminate].
    destruct (Atoi total) as [count [e3|]]; [intros [= <- _ _]; reflexivity | discriminate].
  - split; [congruence | exact (count_of_int g path w n w' Hc)].
Qed.

Lemma count_zero_with_error_witness :
  (Some (NumError "Atoi" "many" ErrSyntax) <> None -> 0 = 0) /\ minInt <= 0 <= maxInt.
Proof.
  refine (count_zero_with_error
            (NewGitlabServer
               (scripted "host" (Some (response_200 (Some "many") 0), None)
                  (fun _ => listed [] 0) (fun _ => listed [] 0) (listed [] 0) (listed [] 0)))
            "users" tt 0 (Some (NumError "Atoi" "many" ErrSyntax)) tt _).
  vm_compute. reflexivity.
Defined.

(** X4: a count operation passes on the error of [NewRequest] without
    sending a request, and the error of [Do] without closing a body; once it
    holds a response it closes the body exactly once, also when it panics on
    a missing header. *)
Theorem count_propagates_and_closes {W} (g : GitlabServer W) (path : string) (w : W)
    req oe w1 :
  NewRequest (client g) "GET" path w = ((req, oe), w1) ->
  (forall e, oe = Some e -> count_of g path w = (Returns (0, Some e), w1))
  /\ (forall res e w2,
      oe = None -> Do (client g) req w1 = ((res, Some e), w2) ->
      count_of g path w = (Returns (0, Some e), w2))
  /\ (forall res w2,
      oe = None -> Do (client g) req w1 = ((Some res, None), w2) ->
      exists out, count_of g path w = (out, Body_Close (client g) res w2))
  /\ (forall w2,
      oe = None -> Do (client g) req w1 = ((None, None), w2) ->
      count_of g path w = (Panics NilDereference, w2)).
Proof.
  intros Hreq. unfold count_of, bind, perform, deferring, ret, fault. rewrite Hreq.
  split; [|split; [|split]].
  - intros e ->. reflexivity.
  - intros res e w2 -> ->. reflexivity.
  - intros res w2 -> ->.
    destruct (at_index _ 0) as [total|pn]; [|eauto].
    destruct (Atoi total) as [count [e|]]; eauto.
  - intros w2 -> ->. reflexivity.
Qed.

Lemma count_propagates_and_closes_witness :
  UserCount
    (NewGitlabServer
       (scripted "host" (None, Some connection_refused)
          (fun _ => listed [] 0) (fun _ => listed [] 0) (listed [] 0) (listed [] 0))) tt
  = (Returns (0, Some connection_refused), tt).
Proof.
  refine (proj1 (proj2 (count_propagates_and_closes
                          (NewGitlabServer
                             (scripted "host" (None, Some connection_refused)
                                (fun _ => listed [] 0) (fun _ => listed [] 0)
                                (listed [] 0) (listed [] 0)))
                          "users" tt {| Method := "GET"; Path := "users" |} None tt _))
            None connection_refused tt _ _); reflexivity.
Defined.

(** ** Further properties: [Projects] and [Groups] *)

(** X5: when [ProjectCount] panics, returns an error or returns a negative
    count, [Projects] asks for no page: it ends in the same panic, returns
    the error with a nil slice, or panics in [make]; the remote state is the
    one the count left. *)
Theorem Projects_without_usable_count {W} (g : GitlabServer W) (w : W) o w1 :
  ProjectCount g w = (o, w1) -> count_unusable o ->
  forall out w', Projects g w out w' <-> out = without_count o /\ w' = w1.
Proof.
  intros Hcount Hbad out w'. split.
  - intros Hrun.
    inversion Hrun as [pn w2 Hc | n e w2 Hc | n w2 Hc Hout | n w2 pn Hc Hin Hneg
                      | n w2 st pn w3 Hc Hin Hstored Hsteps Hcrash
                      | n w2 st Hc Hin Hstored Hsteps Hjoin];
      subst; rewrite Hcount in Hc; injection Hc as -> ->; try (split; reflexivity);
      rewrite cap_negative in Hin by exact Hbad; discriminate.
  - intros [-> ->]. destruct o as [[n [e|]]|pn]; cbn in *.
    + apply (Projects_count_error g w n e w1 Hcount).
    + apply (Projects_make_panics g w n w1 Hcount). apply cap_negative, Hbad.
    + apply (Projects_count_panics g w pn w1 Hcount).
Qed.

Lemma Projects_without_usable_count_witness :
  Projects negative_server tt (Panics MakesliceCapOutOfRange) tt.
Proof.
  refine (proj2 (Projects_without_usable_count negative_server tt
                   (Returns (-5, None)) tt _ _ (Panics MakesliceCapOutOfRange) tt) _).
  - vm_compute. reflexivity.
  - reflexivity.
  - split; reflexivity.
Defined.

(** X6: when [GroupCount] panics, returns an error or returns a negative
    count, [Groups] asks for no page, whatever the fuel: it ends in the same
    panic, returns the error with a nil slice, or panics in [make]. *)
Theorem Groups_without_usable_count {W} (g : GitlabServer W) (w : W) o w1 :
  GroupCount g w = (o, w1) -> count_unusable o ->
  forall fuel, Groups g fuel w = Some (without_count o, w1).
Proof.
  intros Hcount Hbad fuel. unfold Groups. rewrite Hcount.
  destruct o as [[n [e|]]|pn]; cbn in *; try reflexivity.
  unfold make_slice, fault. rewrite cap_negative by assumption. reflexivity.
Qed.

Lemma Groups_without_usable_count_witness :
  Groups unreachable_server 0 tt = Some (Returns ([], Some connection_refused), tt).
Proof.
  refine (Groups_without_usable_count unreachable_server tt
            (Returns (0, Some connection_refused)) tt _ _ 0%nat).
  - reflexivity.
  - exact I.
Defined.










Lemma not_found_count : ProjectCount not_found_server tt = (Returns (150, None), tt).
Proof. vm_compute. reflexivity. Defined.

Lemma not_found_reports o w' e :
  err (ListProjects (client not_found_server) o w').1 = Some e ->
  resp (ListProjects (client not_found_server) o w').1 <> None.
Proof.
  cbn. unfold first_page_not_found, two_pages.
  destruct (_ =? 1); [discriminate|]. destruct (_ =? 2); discriminate.
Defined.

(** X9: after a count from 0 to [maxCount], when every fetch that returns an
    error also returns a response, [Projects] has a run that returns, and
    every run returns some slice with a nil error: the failures are
    reported on the standard output only, never to the caller. *)
Theorem Projects_hides_reported_failures {W} (g : GitlabServer W) (w : W) n w1 :
  ProjectCount g w = (Returns (n, None), w1) -> 0 <= n <= maxCount ->
  (forall p w' e,
      err (ListProjects (client g) (projects_options p) w').1 = Some e ->
      resp (ListProjects (client g) (projects_options p) w').1 <> None) ->
  (exists ps w2, Projects g w (Returns (ps, None)) w2)
  /\ (forall out w2, Projects g w out w2 -> exists ps, out = Returns (ps, None)).
Proof.
  intros Hcount Hn Hresp.
  destruct (small_count n Hn) as (_ & [Hpages _] & _ & _).
  assert (Hsafe : forall st pn w2, ~ crash (client g) st pn w2).
  { intros st pn w2 Hcrash.
    destruct (crash_missing_response _ _ _ _ Hcrash) as (_ & p & w0 & e & He & Hnone).
    exact (Hresp _ _ _ He Hnone). }
  split.
  - destruct (run_joins (client g) (pagesToCheck n) Hpages w1 Hsafe) as (st & Hrun & Hjoin).
    exists (projects st), (remote st).
    apply (Projects_small_count g w n w1 _ _ Hcount Hn). exists st. auto.
  - intros out w2 Hrun.
    apply (Projects_small_count g w n w1 _ _ Hcount Hn) in Hrun
      as (st & _ & [(pn & _ & Hcrash) | (-> & _)]).
    + exfalso. exact (Hsafe _ _ _ Hcrash).
    + eexists. reflexivity.
Qed.

Lemma Projects_hides_reported_failures_witness :
  (exists ps w2, Projects not_found_server tt (Returns (ps, None)) w2)
  /\ (forall out w2, Projects not_found_server tt out w2 ->
                     exists ps, out = Returns (ps, None)).
Proof.
  refine (Projects_hides_reported_failures not_found_server tt 150 tt
            not_found_count count_150 _).
  intros p w' e. apply not_found_reports.
Defined.

(** X10: after a count that [make] accepts, a server whose every response
    names a further page keeps [Groups] in its loop: no amount of fuel
    makes it return. *)
Theorem Groups_endless_cursor {W} (g : GitlabServer W) (w : W) n w1 :
  GroupCount g w = (Returns (n, None), w1) -> 0 <= n <= maxCap ->
  (forall o w0,
      err (ListGroups (client g) o w0).1 = None
      /\ exists rs, resp (ListGroups (client g) o w0).1 = Some rs
                    /\ Response.NextPage rs <> 0) ->
  forall fuel, Groups g fuel w = None.
Proof.
  intros Hcount Hn Hmore fuel. unfold Groups, make_slice, ret.
  rewrite Hcount, cap_in_range by assumption.
  generalize (groups_options 1) (@nil Group.t) w1.
  induction fuel as [|fuel IH]; intros o groups w0; cbn [Groups_loop]; [reflexivity|].
  destruct (Hmore o w0) as (Herr & rs & Hresp & Hnext).
  destruct (ListGroups (client g) o w0) as [r w2]. cbn [fst] in *.
  rewrite Herr, Hresp. destruct (Z.eqb_spec (Response.NextPage rs) 0); [contradiction|].
  apply IH.
Qed.

Lemma Groups_endless_cursor_witness : Groups endless_group_server 1000 tt = None.
Proof.
  refine (Groups_endless_cursor endless_group_server tt 3 tt _ _ _ 1000%nat).
  - vm_compute. reflexivity.
  - vm_compute. split; discriminate.
  - intros o w0. split; [reflexivity|]. eexists. split; [reflexivity | discriminate].
Defined.

(** ** Further properties: the path helpers *)

(** X11: with a non-empty host segment, [ParentGroup] cuts the web URL after
    the first occurrence of the host, keeps what lies before the next
    occurrence of the host, and returns what lies between the first slash
    of that piece and its next slash.  It panics exactly when the host does
    not occur in the URL or that piece has no slash, always with index 1
    out of range for length 1. *)
Theorem ParentGroup_by_occurrence {W} (g : GitlabServer W) (p : Project.t) :
  BaseURL_Host (client g) <> EmptyString ->
  ParentGroup g p
  = match Index (Project.WebURL p) (BaseURL_Host (client g)) with
    | None => Panics (IndexOutOfRange 1 1)
    | Some m =>
        let piece :=
          before (BaseURL_Host (client g))
            (string_drop (m + String.length (BaseURL_Host (client g))) (Project.WebURL p)) in
        match Index piece "/" with
        | None => Panics (IndexOutOfRange 1 1)
        | Some j => Returns (before "/" (string_drop (j + 1) piece))
        end
    end.
Proof.
  intros Hhost. unfold ParentGroup. rewrite Split_second by assumption.
  destruct (Index (Project.WebURL p) (BaseURL_Host (client g))) as [m|]; [|reflexivity].
  cbv zeta. rewrite Split_second by discriminate. reflexivity.
Qed.

(** The host occurs again in the first path segment: the segment is cut. *)
Lemma ParentGroup_by_occurrence_witness :
  ParentGroup (host_server (listed [] 0) (listed [] 0))
    (project 9 "tools" "https://host/hosted-tools/tools")
  = Returns EmptyString.
Proof.
  exact (ParentGroup_by_occurrence (host_server (listed [] 0) (listed [] 0))
           (project 9 "tools" "https://host/hosted-tools/tools") ltac:(discriminate)).
Defined.

(** X12: with a non-empty host segment, no name that [ParentGroup] or
    [TopLevelGroups] returns contains a slash. *)
Theorem group_names_without_slash {W} (g : GitlabServer W) :
  BaseURL_Host (client g) <> EmptyString ->
  (forall p name, ParentGroup g p = Returns name -> Index name "/" = None)
  /\ (forall groups names name,
      TopLevelGroups g groups = Returns names -> name ∈ names -> Index name "/" = None).
Proof.
  intros Hhost. split.
  - intros p name. unfold ParentGroup. rewrite Split_second by assumption.
    destruct (Index _ _) as [m|]; [|discriminate].
    rewrite Split_second by discriminate.
    destruct (Index _ "/") as [j|]; [|discriminate].
    intros [= <-]. apply before_free. discriminate.
  - intros groups names name. unfold TopLevelGroups.
    rewrite TopLevelGroups_loop_first_seen by assumption. cbn [app].
    rewrite filter_not_elem_of_nil. intros [= <-] Hin.
    apply first_seen_elem_of, list_elem_of_fmap in Hin as (gr & -> & _).
    apply before_free. discriminate.
Qed.

Lemma group_names_without_slash_witness : Index "GroupA" "/" = None.
Proof.
  exact (proj1 (group_names_without_slash (host_server (listed [] 0) (listed [] 0))
                  ltac:(discriminate))
           (project 7 "project1" "https://host/GroupA/project1") "GroupA" eq_refl).
Defined.

Lemma explode_nonempty c t : exists x l, explode (String c t) = x :: l.
Proof. unfold explode. cbn [String.length explode_loop]. eauto. Qed.

(** with an empty host segment the loop stops at the first empty full path *)
Lemma TopLevelGroups_loop_empty_host groups : forall seen gr,
  gr ∈ groups -> Group.FullPath gr = EmptyString ->
  TopLevelGroups_loop EmptyString groups seen = Panics (IndexOutOfRange 0 0).
Proof.
  induction groups as [|gr0 groups IH]; intros seen gr Hin Hempty; [inversion Hin|].
  cbn [TopLevelGroups_loop].
  change (Split (Group.FullPath gr0) EmptyString) with (explode (Group.FullPath gr0)).
  destruct (Group.FullPath gr0) as [|c t] eqn:Hpath; [reflexivity|].
  destruct (explode_nonempty c t) as (x & l & ->).
  cbn [at_index lookup list_lookup]. rewrite Split_first by discriminate.
  apply elem_of_cons in Hin as [->|Hin]; [congruence|].
  destruct (negb _); eapply IH; eassumption.
Qed.

(** X13: when the host segment of the base URL is empty, a group with an
    empty full path makes [TopLevelGroups] panic, with index 0 out of range
    for length 0: splitting the empty path on the empty separator gives no
    piece. *)
Theorem TopLevelGroups_empty_host_panics {W} (g : GitlabServer W) (groups : list Group.t) gr :
  BaseURL_Host (client g) = EmptyString ->
  gr ∈ groups -> Group.FullPath gr = EmptyString ->
  TopLevelGroups g groups = Panics (IndexOutOfRange 0 0).
Proof.
  intros Hhost Hin Hempty. unfold TopLevelGroups. rewrite Hhost.
  eapply TopLevelGroups_loop_empty_host; eassumption.
Qed.

Lemma TopLevelGroups_empty_host_panics_witness :
  TopLevelGroups
    (NewGitlabServer
       (scripted EmptyString (None, None) (fun _ => listed [] 0) (fun _ => listed [] 0)
          (listed [] 0) (listed [] 0)))
    [gA; group 13 EmptyString]
  = Panics (IndexOutOfRange 0 0).
Proof.
  exact (TopLevelGroups_empty_host_panics
           (NewGitlabServer
              (scripted EmptyString (None, None) (fun _ => listed [] 0)
                 (fun _ => listed [] 0) (listed [] 0) (listed [] 0)))
           [gA; group 13 EmptyString] (group 13 EmptyString) eq_refl
           ltac:(right; left) eq_refl).
Defined.


Lemma first_seen_app a b :
  first_seen (a ++ b) = first_seen a ++ filter (fun x => x ∉ a) (first_seen b).
Proof.
  induction a as [|k a IH]; cbn [app first_seen].
  - rewrite filter_not_elem_of_nil. reflexivity.
  - rewrite IH, filter_app, list_filter_filter. do 3 f_equal.
    apply list_filter_iff. intros x. rewrite not_elem_of_cons. tauto.
Qed.

Lemma filter_seen_nil (a : list string) : filter (fun x => x ∉ a) (first_seen a) = [].
Proof.
  assert (H : forall l, (forall x, x ∈ l -> x ∈ a) -> filter (fun x => x ∉ a) l = []).
  { induction l as [|x l IH]; intros Hl; [reflexivity|].
    rewrite filter_cons_False by (intros Hx; apply Hx, Hl; left).
    apply IH. intros y Hy. apply Hl. right. exact Hy. }
  apply H. intros x. apply first_seen_elem_of.
Qed.

Lemma TopLevelGroups_keys {W} (g : GitlabServer W) (groups : list Group.t) :
  BaseURL_Host (client g) <> EmptyString ->
  TopLevelGroups g groups
  = Returns (first_seen
               (map (fun gr => top_level_component (BaseURL_Host (client g))
                                 (Group.FullPath gr)) groups)).
Proof.
  intros Hhost. unfold TopLevelGroups.
  rewrite TopLevelGroups_loop_first_seen by assumption.
  cbn [app]. rewrite filter_not_elem_of_nil. reflexivity.
Qed.

(** X14: with a non-empty host segment, the groups can be handled in
    batches: the names of [a ++ b] are the names of [a] followed by those
    names of [b] that [a] did not give; so handling a list twice adds
    nothing. *)
Theorem TopLevelGroups_in_batches {W} (g : GitlabServer W) (a b : list Group.t) ra rb :
  BaseURL_Host (client g) <> EmptyString ->
  TopLevelGroups g a = Returns ra ->
  TopLevelGroups g b = Returns rb ->
  TopLevelGroups g (a ++ b) = Returns (ra ++ filter (fun x => x ∉ ra) rb)
  /\ TopLevelGroups g (a ++ a) = Returns ra.
Proof.
  intros Hhost. rewrite !TopLevelGroups_keys by assumption.
  intros [= <-] [= <-]. rewrite !map_app, !first_seen_app. split.
  - do 2 f_equal. apply list_filter_iff. intros x. rewrite first_seen_elem_of. reflexivity.
  - rewrite filter_seen_nil, app_nil_r. reflexivity.
Qed.

Lemma TopLevelGroups_in_batches_witness :
  TopLevelGroups group_server ([gA; gC] ++ [gB; gC]) = Returns (["A"; "B"] ++ []).
Proof.
  exact (proj1 (TopLevelGroups_in_batches group_server [gA; gC] [gB; gC]
                  ["A"; "B"] ["A"; "B"] ltac:(discriminate) eq_refl eq_refl)).
Defined.

(** X15: with a non-empty host segment, the names [TopLevelGroups] returns
    do not depend on the order of the groups, up to their own order, and
    there are at most as many names as groups. *)
Theorem TopLevelGroups_any_order {W} (g : GitlabServer W) (groups groups' : list Group.t)
    names names' :
  BaseURL_Host (client g) <> EmptyString ->
  groups ≡ₚ groups' ->
  TopLevelGroups g groups = Returns names ->
  TopLevelGroups g groups' = Returns names' ->
  names ≡ₚ names' /\ (length names <= length groups)%nat.
Proof.
  intros Hhost Hperm. rewrite !TopLevelGroups_keys by assumption.
  intros [= <-] [= <-]. split.
  - apply NoDup_Permutation; try apply first_seen_NoDup.
    intros x. rewrite !first_seen_elem_of. rewrite Hperm. reflexivity.
  - etransitivity; [apply sublist_length, first_seen_sublist|].
    rewrite length_map. reflexivity.
Qed.

Lemma TopLevelGroups_any_order_witness :
  ["A"; "B"] ≡ₚ ["B"; "A"] /\ (length ["A"; "B"] <= length [gA; gB; gC])%nat.
Proof.
  refine (TopLevelGroups_any_order group_server [gA; gB; gC] [gC; gB; gA]
            ["A"; "B"] ["B"; "A"] ltac:(discriminate) _ eq_refl eq_refl).
  change [gC; gB; gA] with (reverse [gA; gB; gC]). symmetry. apply reverse_Permutation.
Defined.

(** ** Further properties: [GetLatestCommit] *)

(** X16: [GetLatestCommit] returns a hash or an error, never both: with an
    error the hash is empty; without one the listing had no error, status
    200 and a first commit, whose ID is the hash.  A listing with neither
    an error nor a response makes it panic on [resp.StatusCode]. *)
Theorem GetLatestCommit_hash_or_error {W} (g : GitlabServer W) (p : Project.t) (w : W) r w1 :
  ListCommits (client g) (Project.ID p) w = (r, w1) ->
  (forall s oe w2,
      GetLatestCommit g p w = (Returns (s, oe), w2) ->
      w2 = w1
      /\ match oe with
         | Some _ => s = EmptyString
         | None =>
             err r = None
             /\ exists rs first rest,
                  resp r = Some rs /\ Response.StatusCode rs = 200
                  /\ items r = first :: rest /\ s = Commit.ID first
         end)
  /\ (err r = None -> resp r = None ->
      GetLatestCommit g p w = (Panics NilDereference, w1)).
Proof.
  intros Hlist. unfold GetLatestCommit, bind, perform, ret, fault. rewrite Hlist. split.
  - intros s oe w2. destruct (err r) as [e|]; [intros [= <- <- <-]; auto|].
    destruct (resp r) as [rs|]; [|discriminate].
    destruct (Z.eqb_spec (Response.StatusCode rs) http_StatusOK) as [Hok|Hno]; cbn [negb].
    + destruct (items r) as [|first rest]; intros [= <- <- <-]; [auto|].
      split; [reflexivity|]. split; [reflexivity|]. exists rs, first, rest. auto.
    + intros [= <- <- <-]. auto.
  - intros -> ->. reflexivity.
Qed.

Lemma GetLatestCommit_hash_or_error_witness :
  tt = tt
  /\ (listed [commit "4f2a"] 0).(err) = None
  /\ exists rs first rest,
       resp (listed [commit "4f2a"] 0) = Some rs /\ Response.StatusCode rs = 200
       /\ items (listed [commit "4f2a"] 0) = first :: rest /\ "4f2a" = Commit.ID first.
Proof.
  exact (proj1 (GetLatestCommit_hash_or_error
                  (host_server (listed [commit "4f2a"] 0) (listed [] 0)) p1 tt
                  (listed [commit "4f2a"] 0) tt eq_refl)
           "4f2a" None tt eq_refl).
Defined.


(** ** Further properties: the length of a run, and the two path helpers together *)





(** X19: the two helpers agree.  For a web URL made of a prefix, the host
    segment, a slash and a path, where the host occurs first right after the
    prefix and not in the path, [ParentGroup] returns the name that
    [TopLevelGroups] gives for a group with that path as full path. *)
Theorem ParentGroup_is_top_level_group {W} (g : GitlabServer W) (p : Project.t)
    (gr : Group.t) (pre : string) :
  BaseURL_Host (client g) <> EmptyString ->
  Project.WebURL p = pre +:+ BaseURL_Host (client g) +:+ "/" +:+ Group.FullPath gr ->
  Index (Project.WebURL p) (BaseURL_Host (client g)) = Some (String.length pre) ->
  Index ("/" +:+ Group.FullPath gr) (BaseURL_Host (client g)) = None ->
  Index (Group.FullPath gr) (BaseURL_Host (client g)) = None ->
  exists name,
    ParentGroup g p = Returns name /\ TopLevelGroups g [gr] = Returns [name].
Proof.
  intros Hhost Hurl Hfirst Htail Hpath.
  set (host := BaseURL_Host (client g)) in *.
  exists (before "/" (Group.FullPath gr)). split.
  - unfold ParentGroup. fold host. rewrite Split_second, Hfirst by assumption.
    rewrite Hurl, string_drop_add, !string_drop_app.
    unfold before at 1. rewrite Htail.
    change ("/" +:+ Group.FullPath gr) with (String "/"%char (Group.FullPath gr)).
    rewrite Split_second, Index_byte_head by discriminate. reflexivity.
  - unfold TopLevelGroups. fold host. cbn [TopLevelGroups_loop].
    rewrite Split_first by assumption. unfold before at 1. rewrite Hpath.
    rewrite Split_first by discriminate. reflexivity.
Qed.

Lemma ParentGroup_is_top_level_group_witness :
  exists name,
    ParentGroup (host_server (listed [] 0) (listed [] 0))
      (project 7 "x" "https://host/A/x") = Returns name
    /\ TopLevelGroups (host_server (listed [] 0) (listed [] 0)) [gA] = Returns [name].
Proof.
  exact (ParentGroup_is_top_level_group (host_server (listed [] 0) (listed [] 0))
           (project 7 "x" "https://host/A/x") gA "https://"
           ltac:(discriminate) eq_refl eq_refl eq_refl eq_refl).
Defined.

(** ** Further properties: the host inside a full path, counts beyond the limits *)

(** X20: with a non-empty host segment, a full path in which the host
    segment occurs is cut at its first occurrence: the name
    [TopLevelGroups] gives for the group is the part before the first slash
    of what precedes the host, not the first component of the full path. *)
Theorem TopLevelGroups_cuts_at_host {W} (g : GitlabServer W) (gr : Group.t) (m : nat) :
  BaseURL_Host (client g) <> EmptyString ->
  Index (Group.FullPath gr) (BaseURL_Host (client g)) = Some m ->
  TopLevelGroups g [gr]
  = Returns [before "/" (String.substring 0 m (Group.FullPath gr))]
  /\ (forall j, Index (Group.FullPath gr) "/" = Some j -> (m < j)%nat ->
      TopLevelGroups g [gr] <> Returns [before "/" (Group.FullPath gr)]).
Proof.
  intros Hhost Hm.
  assert (Heq : TopLevelGroups g [gr]
                = Returns [before "/" (String.substring 0 m (Group.FullPath gr))]).
  { unfold TopLevelGroups. cbn [TopLevelGroups_loop].
    rewrite Split_first by assumption. unfold before at 1. rewrite Hm.
    rewrite Split_first by discriminate. reflexivity. }
  split; [exact Heq|].
  intros j Hj Hlt. rewrite Heq. intros [= Hsame].
  pose proof (f_equal String.length Hsame) as Hlen.
  assert (Hleft : (String.length (before "/" (String.substring 0 m (Group.FullPath gr)))
                   <= m)%nat).
  { unfold before. destruct (Index (String.substring 0 m (Group.FullPath gr)) "/");
      rewrite !length_substring; lia. }
  assert (Hright : String.length (before "/" (Group.FullPath gr)) = j).
  { unfold before. rewrite Hj, length_substring.
    pose proof (index_correct1 _ _ _ _ Hj) as Hocc.
    pose proof (f_equal String.length Hocc) as Hl.
    rewrite length_substring in Hl. cbn [String.length] in Hl. lia. }
  lia.
Qed.

(** The host segment git and the group git-ops: the name is empty. *)
Lemma TopLevelGroups_cuts_at_host_witness :
  TopLevelGroups
    (NewGitlabServer
       (scripted "git" (None, None) (fun _ => listed [] 0) (fun _ => listed [] 0)
          (listed [] 0) (listed [] 0)))
    [group 14 "git-ops/x"]
  = Returns [EmptyString].
Proof.
  exact (proj1 (TopLevelGroups_cuts_at_host
                  (NewGitlabServer
                     (scripted "git" (None, None) (fun _ => listed [] 0)
                        (fun _ => listed [] 0) (listed [] 0) (listed [] 0)))
                  (group 14 "git-ops/x") 0%nat ltac:(discriminate) eq_refl)).
Defined.

(** X21: a count above 2^45 never gets past [make]: [Projects] can only
    panic with "makeslice: cap out of range", and so does [Groups] whatever
    the fuel; no page is asked for, the remote state is the one the count
    left. *)
Theorem count_beyond_capacity_panics {W} (g : GitlabServer W) (w : W) n w1 :
  maxCap < n ->
  (ProjectCount g w = (Returns (n, None), w1) ->
   forall out w', Projects g w out w' <-> out = Panics MakesliceCapOutOfRange /\ w' = w1)
  /\ (GroupCount g w = (Returns (n, None), w1) ->
      forall fuel, Groups g fuel w = Some (Panics MakesliceCapOutOfRange, w1)).
Proof.
  intros Hn. split.
  - intros Hcount out w'.
    pose proof (ProjectCount_int g w n w1 Hcount) as Hint.
    assert (Hcap : cap_out_of_range PtrSize n = true) by (apply cap_too_large; lia).
    split.
    + intros Hrun.
      inversion Hrun as [pn w3 Hc | n0 e w3 Hc | n0 w3 Hc Hout | n0 w3 pn Hc Hin Hneg
                        | n0 w3 st pn w4 Hc Hin Hstored Hsteps Hcrash
                        | n0 w3 st Hc Hin Hstored Hsteps Hjoin];
        subst; rewrite Hcount in Hc; try discriminate; injection Hc as <- <-;
        try congruence.
      split; reflexivity.
    + intros [-> ->]. apply (Projects_make_panics g w n w1 Hcount Hcap).
  - intros Hcount fuel.
    pose proof (count_of_int g "groups" w n w1 Hcount) as Hint.
    unfold Groups, make_slice. rewrite Hcount, cap_too_large by lia. reflexivity.
Qed.

Lemma count_beyond_capacity_panics_witness :
  Groups over_capacity_server 7 tt = Some (Panics MakesliceCapOutOfRange, tt).
Proof.
  refine (proj2 (count_beyond_capacity_panics over_capacity_server tt 35184372088833 tt _)
            _ 7%nat).
  - vm_compute. reflexivity.
  - vm_compute. reflexivity.
Defined.

(** X22: a count that [make] accepts and whose page count lies between 2^31
    and 2^32 - 1 stops [Projects] at [wg.Add]: read as an [int32] the page
    count is negative, the call panics with "sync: negative WaitGroup
    counter" and no goroutine is launched. *)
Theorem Projects_counter_overflow_panics {W} (g : GitlabServer W) (w : W) n w1 :
  ProjectCount g w = (Returns (n, None), w1) ->
  maxCount < n <= (2 ^ 32 - 1) * ITEMS_PER_PAGE ->
  2 ^ 31 <= pagesToCheck n < 2 ^ 32
  /\ forall out w',
       Projects g w out w' <-> out = Panics NegativeWaitGroupCounter /\ w' = w1.
Proof.
  unfold maxCount, ITEMS_PER_PAGE. intros Hcount Hn.
  pose proof (pagesToCheck_ceil n ltac:(lia)) as Hceil.
  assert (Hpages : 2 ^ 31 <= pagesToCheck n < 2 ^ 32)
    by (unfold is_ceiling, ITEMS_PER_PAGE in Hceil; lia).
  assert (Hcap : cap_out_of_range PtrSize n = false).
  { apply cap_in_range. unfold maxCap, maxAlloc, PtrSize.
    change (2 ^ 48 / 8) with (2 ^ 45). lia. }
  pose proof (WaitGroup_Add_negative _ Hpages) as Hadd.
  split; [exact Hpages|]. intros out w'. split.
  - intros Hrun.
    inversion Hrun as [pn w3 Hc | n0 e w3 Hc | n0 w3 Hc Hout | n0 w3 pn Hc Hin Hneg
                      | n0 w3 st pn w4 Hc Hin Hstored Hsteps Hcrash
                      | n0 w3 st Hc Hin Hstored Hsteps Hjoin];
      subst; rewrite Hcount in Hc; try discriminate; injection Hc as <- <-;
      try congruence.
    rewrite Hadd in Hneg. injection Hneg as <-. split; reflexivity.
  - intros [-> ->]. apply (Projects_add_panics g w n w1 _ Hcount Hcap Hadd).
Qed.

(** 214748364800 items announced: 2^31 pages. *)
Lemma Projects_counter_overflow_panics_witness :
  2 ^ 31 <= pagesToCheck 214748364800 < 2 ^ 32.
Proof.
  exact (proj1 (Projects_counter_overflow_panics
                  (NewGitlabServer
                     (scripted "host" (Some (response_200 (Some "214748364800") 0), None)
                        two_pages three_group_pages (listed [] 0) (listed [] 0)))
                  tt 214748364800 tt
                  ltac:(vm_compute; reflexivity)
                  ltac:(vm_compute; split; [reflexivity | discriminate]))).
Defined.
